(** * PsicoTrain: the viewer, answer and annotation state of [app.js]

    A shallow embedding of the state-changing functions of the application
    script and the properties of its specification that concern them.

    Conventions of the embedding.
    - JavaScript numbers that the script keeps integral (page numbers, pixel
      counts, counters, brush widths) are [Z]; numbers obtained by division
      (the zoom level, pointer coordinates) are [Q], computed exactly. The
      script computes them in binary64, so every statement about a [Q] is a
      statement about the exact value the double approximates; a statement
      that the script's own value equals a number, or lies on one side of a
      threshold, is made for inputs on which its operations are exact in
      binary64 (whole numbers of the pixel range, ratios that are whole
      numbers or powers of two).
    - A JavaScript object used as a dictionary is a [gmap] with [string]
      keys; a numeric property name is the decimal rendering of the number,
      as [String(n)] gives it. The map holds the entries of the object
      itself: a property name that every object inherits from
      [Object.prototype] ([Js.inherited]) is read and written through the
      prototype chain instead, and the statements that depend on the
      difference are made for the other names.
    - A string is its sequence of bytes; [Js.toUpperCase] is
      [String.prototype.toUpperCase] on strings of ASCII characters
      ([Js.isASCII]).
    - [null] and [undefined] are [None].
    - The global [state] object is the record [State]; a function that
      mutates it is a function from [State] to [State]. Fields that none of
      the embedded functions reads or writes (the exercise catalogue, the
      sidebar flag, the stopwatch, the notes) are left out.
    - Elements of the page that a function looks up are passed to it in a
      [Document]; a lookup that finds nothing makes the later property access
      throw, and that is [Throws]. Only exceptions raised before [state] is
      written are tracked: one raised afterwards leaves the written state. *)

From Stdlib Require Import ZArith QArith Qround Qminmax Qabs String Ascii List.
From Stdlib Require Import DecimalString DecimalZ Lia.
From stdpp Require Import gmap strings.

Local Open Scope Z_scope.

(** ** JavaScript primitives used by the script *)

Module Js.

(** [x < y] and [x > y] on numbers. *)
Definition lt (x y : Q) : bool := negb (Qle_bool y x).
Definition gt (x y : Q) : bool := lt y x.

Definition Math_min (x y : Q) : Q := if Qle_bool x y then x else y.
Definition Math_max (x y : Q) : Q := if Qle_bool x y then y else x.

(** [Math.round]: the nearest integer, a tie going up. *)
Definition Math_round (x : Q) : Z := Qfloor (x + (1 # 2))%Q.

(** [String(n)] for an integral number, all of whose digits JavaScript
    prints (as it does below 10^21). *)
Definition String_of_number (n : Z) : string :=
  NilZero.string_of_int (Z.to_int n).

(** Truthiness of a string-valued property: present and not empty. *)
Definition truthy (v : option string) : bool :=
  match v with
  | Some EmptyString => false
  | Some _ => true
  | None => false
  end.

(** Whether every character of a string is an ASCII character. *)
Definition isASCII (s : string) : bool :=
  forallb (λ c, Nat.ltb (nat_of_ascii c) 128) (list_ascii_of_string s).

(** The property names that every object inherits from [Object.prototype]. *)
Definition Object_prototype_names : list string :=
  ["__proto__"; "constructor"; "hasOwnProperty"; "isPrototypeOf";
   "propertyIsEnumerable"; "toLocaleString"; "toString"; "valueOf";
   "__defineGetter__"; "__defineSetter__"; "__lookupGetter__";
   "__lookupSetter__"].

(** Whether [object[name]] goes to an inherited property, when the object has
    no entry of its own under the name. *)
Definition inherited (name : string) : bool :=
  bool_decide (name ∈ Object_prototype_names).

(** [toUpperCase] on the ASCII letters; other bytes are kept, so that on a
    string of ASCII characters this is [String.prototype.toUpperCase]. *)
Definition upper_ascii (c : ascii) : ascii :=
  let n := nat_of_ascii c in
  if (Nat.leb 97 n && Nat.leb n 122)%bool then ascii_of_nat (n - 32) else c.

Fixpoint toUpperCase (s : string) : string :=
  match s with
  | EmptyString => EmptyString
  | String c rest => String (upper_ascii c) (toUpperCase rest)
  end.

End Js.

(** ** The application state *)

Record Exercise := {
  name : string;
  total_pages : Z;
  pages : list string;
  isPDF : bool
}.

Record Stats := {
  stats_correct : Z;
  stats_incorrect : Z
}.

(** A committed page answer, [{selected, correct, wasCorrect}]. *)
Record AnsweredPage := {
  selected : string;
  correct : option string;
  wasCorrect : option bool
}.

Record DOMRect := {
  rect_left : Q;
  rect_top : Q;
  rect_width : Q;
  rect_height : Q
}.

(** The drawing canvas: its backing pixel size, its bounding box on screen
    and the image [toDataURL()] would return for its content. *)
Record Canvas := {
  canvas_width : Z;
  canvas_height : Z;
  boundingClientRect : DOMRect;
  toDataURL : string
}.

Record Drawing := {
  enabled : bool;
  tool : string;
  color : string;
  brushSizes : gmap string Z;
  isDrawing : bool;
  lastX : Q;
  lastY : Q;
  ctx : bool;
  canvas : option Canvas;
  savedDrawings : gmap string string
}.

Record State := {
  answers : gmap string (gmap string (gmap string string));
  currentCategory : option string;
  currentExercise : option Exercise;
  currentPage : Z;
  zoomLevel : Q;
  stats : Stats;
  answeredPages : gmap string (gmap string AnsweredPage);
  drawing : Drawing;
  pageAnswers : option (gmap string (gmap string string))
}.

(** The literal the script initialises [state] with. *)
Definition initial_state : State := {|
  answers := ∅;
  currentCategory := None;
  currentExercise := None;
  currentPage := 1;
  zoomLevel := 1%Q;
  stats := {| stats_correct := 0; stats_incorrect := 0 |};
  answeredPages := ∅;
  drawing := {|
    enabled := false;
    tool := "pen";
    color := "#ef4444";
    brushSizes := <["pen" := 4]> (<["highlighter" := 12]> (<["eraser" := 20]> ∅));
    isDrawing := false;
    lastX := 0%Q;
    lastY := 0%Q;
    ctx := false;
    canvas := None;
    savedDrawings := ∅
  |};
  pageAnswers := None
|}.

(** Assignments to one field of [state]. *)
Definition set_currentExercise (e : option Exercise) (s : State) : State :=
  {| answers := answers s; currentCategory := currentCategory s;
     currentExercise := e; currentPage := currentPage s;
     zoomLevel := zoomLevel s; stats := stats s;
     answeredPages := answeredPages s; drawing := drawing s;
     pageAnswers := pageAnswers s |}.

Definition set_currentPage (p : Z) (s : State) : State :=
  {| answers := answers s; currentCategory := currentCategory s;
     currentExercise := currentExercise s; currentPage := p;
     zoomLevel := zoomLevel s; stats := stats s;
     answeredPages := answeredPages s; drawing := drawing s;
     pageAnswers := pageAnswers s |}.

Definition set_zoomLevel (z : Q) (s : State) : State :=
  {| answers := answers s; currentCategory := currentCategory s;
     currentExercise := currentExercise s; currentPage := currentPage s;
     zoomLevel := z; stats := stats s;
     answeredPages := answeredPages s; drawing := drawing s;
     pageAnswers := pageAnswers s |}.

Definition set_stats (st : Stats) (s : State) : State :=
  {| answers := answers s; currentCategory := currentCategory s;
     currentExercise := currentExercise s; currentPage := currentPage s;
     zoomLevel := zoomLevel s; stats := st;
     answeredPages := answeredPages s; drawing := drawing s;
     pageAnswers := pageAnswers s |}.

Definition set_answeredPages (a : gmap string (gmap string AnsweredPage))
    (s : State) : State :=
  {| answers := answers s; currentCategory := currentCategory s;
     currentExercise := currentExercise s; currentPage := currentPage s;
     zoomLevel := zoomLevel s; stats := stats s;
     answeredPages := a; drawing := drawing s;
     pageAnswers := pageAnswers s |}.

Definition set_drawing (d : Drawing) (s : State) : State :=
  {| answers := answers s; currentCategory := currentCategory s;
     currentExercise := currentExercise s; currentPage := currentPage s;
     zoomLevel := zoomLevel s; stats := stats s;
     answeredPages := answeredPages s; drawing := d;
     pageAnswers := pageAnswers s |}.


Definition set_brushSizes (b : gmap string Z) (d : Drawing) : Drawing :=
  {| enabled := enabled d; tool := tool d; color := color d;
     brushSizes := b; isDrawing := isDrawing d; lastX := lastX d;
     lastY := lastY d; ctx := ctx d; canvas := canvas d;
     savedDrawings := savedDrawings d |}.

Definition set_savedDrawings (m : gmap string string) (d : Drawing) : Drawing :=
  {| enabled := enabled d; tool := tool d; color := color d;
     brushSizes := brushSizes d; isDrawing := isDrawing d; lastX := lastX d;
     lastY := lastY d; ctx := ctx d; canvas := canvas d;
     savedDrawings := m |}.

(** ** Zoom *)

(** The two elements [fitToScreen] measures. *)
Record Container := { clientWidth : Z; clientHeight : Z }.
Record Image := { naturalWidth : Z; naturalHeight : Z }.

(** A touch point of a touch event. *)
Record Touch := { clientX : Q; clientY : Q }.

Module Zoom.

Definition round_tenth (z : Q) : Q :=
  (inject_Z (Js.Math_round (z * 10)) / 10)%Q.

Definition zoomIn (s : State) : State :=
  let s1 := set_zoomLevel (Js.Math_min (zoomLevel s + (1 # 10)) 4)%Q s in
  set_zoomLevel (round_tenth (zoomLevel s1)) s1.

Definition zoomOut (s : State) : State :=
  let s1 := set_zoomLevel (Js.Math_max (zoomLevel s - (1 # 10)) (2 # 10))%Q s in
  set_zoomLevel (round_tenth (zoomLevel s1)) s1.

Definition resetZoom (s : State) : State := set_zoomLevel 1%Q s.

Definition fitToScreen (container : option Container) (img : option Image)
    (s : State) : State :=
  match container, img with
  | Some c, Some i =>
      let containerWidth := inject_Z (clientWidth c - 40) in
      let containerHeight := inject_Z (clientHeight c - 40) in
      let imgRatio := (inject_Z (naturalWidth i) / inject_Z (naturalHeight i))%Q in
      let containerRatio := (containerWidth / containerHeight)%Q in
      if Js.gt imgRatio containerRatio
      then set_zoomLevel (containerWidth / inject_Z (naturalWidth i))%Q s
      else set_zoomLevel (containerHeight / inject_Z (naturalHeight i))%Q s
  | _, _ => s
  end.

(** The spec's [computeFitZoom]: the smaller of the two candidate scale
    factors of the container, less the margin, over the content. *)
Definition computeFitZoom_min (containerSize contentSize : Z * Z) (margin : Z) : Q :=
  Qmin (inject_Z (fst containerSize - margin) / inject_Z (fst contentSize))
       (inject_Z (snd containerSize - margin) / inject_Z (snd contentSize)).

(** *** Pinch gesture *)

(** The two module-level variables of the gesture. *)
Record Pinch := { initialPinchDistance : Q; initialZoomLevel : Q }.

Definition initial_pinch : Pinch :=
  {| initialPinchDistance := 0%Q; initialZoomLevel := 1%Q |}.

Section Gesture.

(** [Math.hypot] of two numbers: a square root, left abstract. *)
Variable Math_hypot : Q -> Q -> Q.

(** The [touchstart] listener. [inside] says whether the image container
    exists and contains the target of the event. *)
Definition touchstart (inside : bool) (touches : list Touch)
    (g : Pinch) (s : State) : Pinch :=
  match inside, touches with
  | true, [touch1; touch2] =>
      {| initialPinchDistance :=
           Math_hypot (clientX touch2 - clientX touch1)%Q
                      (clientY touch2 - clientY touch1)%Q;
         initialZoomLevel := zoomLevel s |}
  | _, _ => g
  end.

(** The [touchmove] listener. *)
Definition touchmove (inside : bool) (touches : list Touch)
    (g : Pinch) (s : State) : State :=
  match inside, touches with
  | true, [touch1; touch2] =>
      let currentDistance :=
        Math_hypot (clientX touch2 - clientX touch1)%Q
                   (clientY touch2 - clientY touch1)%Q in
      if Js.gt (initialPinchDistance g) 0%Q then
        let scale := (currentDistance / initialPinchDistance g)%Q in
        let s1 :=
          set_zoomLevel
            (Js.Math_max (2 # 10) (Js.Math_min 4 (initialZoomLevel g * scale)))%Q s in
        set_zoomLevel (round_tenth (zoomLevel s1)) s1
      else s
  | _, _ => s
  end.

End Gesture.

End Zoom.

(** ** The answer panel and the committed page answers *)

(** What the functions of this part look up in the page: whether the
    selector [.answer-btn[data-answer=...]] finds a button, and whether the
    feedback box exists. *)
Record Document := {
  answer_btn : string -> bool;
  feedback : bool
}.

(** What the user is shown by [selectAnswer]. *)
Inductive Signal :=
| AlreadyAnswered
| FeedbackCorrect
| FeedbackIncorrect (correctAnswer : string)
| FeedbackNoKey.

(** How a call ends: with a [TypeError], or normally, in a state. *)
Inductive Completion (A : Type) :=
| Throws
| Returns (s : State) (a : A).
Arguments Throws {A}.
Arguments Returns {A} s a.

Module Answers.

(** [getExerciseAnswers]: [state.pageAnswers[exerciseName] || {}], or [{}]
    without a map. The entry read is the map's own, as the script reads it
    for every name that is not inherited ([Js.inherited]). *)
Definition getExerciseAnswers (exerciseName : string) (s : State)
    : gmap string string :=
  match pageAnswers s with
  | None => ∅
  | Some pa => default ∅ (pa !! exerciseName)
  end.


(** The property name of the current category: [null] reads as "null". *)
Definition categoryKey (s : State) : string :=
  default "null" (currentCategory s).

Definition pageKey (s : State) : string :=
  Js.String_of_number (currentPage s).

(** The entry of the answer key for the current category, the given
    exercise and the current page. *)
Definition answerKeyEntry (exerciseName : string) (s : State) : option string :=
  answers s !! categoryKey s ≫= (λ byExercise,
    byExercise !! exerciseName ≫= (λ byPage, byPage !! pageKey s)).

(** The committed record of the current page of the given exercise, read
    from the map's own entry of the exercise, as the script reads it for
    every name that is not inherited. *)
Definition answeredPage (exerciseName : string) (s : State)
    : option AnsweredPage :=
  answeredPages s !! exerciseName ≫= (λ byPage, byPage !! pageKey s).

(** [selectAnswer]. Every branch dereferences the selected button and the
    feedback box before it writes to [state]. The record is stored in the
    map's own entry of the exercise, as the script stores it for every name
    that is not inherited. *)
Definition selectAnswer (doc : Document) (answer : string) (s : State)
    : Completion Signal :=
  match currentExercise s with
  | None => Throws
  | Some ex =>
      let exerciseName := name ex in
      match answeredPage exerciseName s with
      | Some _ => Returns s AlreadyAnswered
      | None =>
          let correctAnswer :=
            if Js.truthy (answerKeyEntry exerciseName s)
            then Js.toUpperCase <$> answerKeyEntry exerciseName s
            else None in
          let isCorrect :=
            if Js.truthy correctAnswer
            then Some (bool_decide (Some answer = correctAnswer))
            else None in
          if negb (answer_btn doc answer && feedback doc) then Throws
          else
            let record := {| selected := answer;
                             correct := correctAnswer;
                             wasCorrect := isCorrect |} in
            let commit (st : State) :=
              let byPage := default ∅ (answeredPages st !! exerciseName) in
              set_answeredPages
                (<[exerciseName := <[pageKey st := record]> byPage]>
                   (answeredPages st)) st in
            match isCorrect, correctAnswer with
            | Some true, _ =>
                Returns
                  (commit (set_stats
                             {| stats_correct := stats_correct (stats s) + 1;
                                stats_incorrect := stats_incorrect (stats s) |} s))
                  FeedbackCorrect
            | Some false, Some c =>
                Returns
                  (commit (set_stats
                             {| stats_correct := stats_correct (stats s);
                                stats_incorrect := stats_incorrect (stats s) + 1 |} s))
                  (FeedbackIncorrect c)
            | _, _ => Returns (commit s) FeedbackNoKey
            end
      end
  end.

End Answers.

(** ** Page navigation *)

(** A document opened by the PDF library: its page count, and for a page
    number the image of the rendered page, or [None] when getting or
    rendering the page fails. *)
Record PDFDocument := {
  numPages : Z;
  renderPage : Z -> option string
}.

(** The global [loadedPDF]. *)
Record LoadedPDF := {
  document : option PDFDocument;
  pdf_currentPage : Z;
  pdf_totalPages : Z;
  fileName : string;
  pageCache : gmap string string
}.

Definition initial_loadedPDF : LoadedPDF :=
  {| document := None; pdf_currentPage := 1; pdf_totalPages := 0;
     fileName := ""; pageCache := ∅ |}.

Definition set_pageCache (c : gmap string string) (pdf : LoadedPDF) : LoadedPDF :=
  {| document := document pdf; pdf_currentPage := pdf_currentPage pdf;
     pdf_totalPages := pdf_totalPages pdf; fileName := fileName pdf;
     pageCache := c |}.

Definition set_pdf_currentPage (p : Z) (pdf : LoadedPDF) : LoadedPDF :=
  {| document := document pdf; pdf_currentPage := p;
     pdf_totalPages := pdf_totalPages pdf; fileName := fileName pdf;
     pageCache := pageCache pdf |}.

Module Navigation.

(** [function prevPage()], later bound to [originalPrevPage]. *)
Definition originalPrevPage (s : State) : State :=
  if 1 <? currentPage s then set_currentPage (currentPage s - 1) s else s.

(** [function nextPage()], later bound to [originalNextPage]; [None] is the
    [TypeError] of reading [total_pages] when no exercise is open. *)
Definition originalNextPage (s : State) : option State :=
  match currentExercise s with
  | None => None
  | Some ex =>
      if currentPage s <? total_pages ex
      then Some (set_currentPage (currentPage s + 1) s)
      else Some s
  end.

Definition cached (pageNum : Z) (pdf : LoadedPDF) : bool :=
  Js.truthy (pageCache pdf !! Js.String_of_number pageNum).

(** [renderPDFPage]. [viewer] says whether the image, the page indicator
    and the navigation buttons exist; everything after the first line runs
    inside [try], so a failure there ends the call normally. *)
Definition renderPDFPage (viewer : bool) (pageNum : Z)
    (s : State) (pdf : LoadedPDF) : State * LoadedPDF :=
  match document pdf with
  | None => (s, pdf)
  | Some doc =>
      if cached pageNum pdf then (s, pdf)
      else
        match renderPage doc pageNum with
        | None => (s, pdf)
        | Some imageData =>
            let pdf1 :=
              set_pageCache
                (<[Js.String_of_number pageNum := imageData]> (pageCache pdf)) pdf in
            if viewer
            then (set_currentPage pageNum s, set_pdf_currentPage pageNum pdf1)
            else (s, pdf1)
        end
  end.

(** [preloadAdjacentPages], run to its end. *)
Definition preloadAdjacentPages (currentPage : Z) (pdf : LoadedPDF) : LoadedPDF :=
  match document pdf with
  | None => pdf
  | Some doc =>
      let pagesToPreload :=
        (if (1 <? currentPage) && negb (cached (currentPage - 1) pdf)
         then [currentPage - 1] else []) ++
        (if (currentPage <? pdf_totalPages pdf) && negb (cached (currentPage + 1) pdf)
         then [currentPage + 1] else []) in
      fold_left
        (λ acc pageNum,
           match renderPage doc pageNum with
           | Some data =>
               set_pageCache
                 (<[Js.String_of_number pageNum := data]> (pageCache acc)) acc
           | None => acc
           end)
        pagesToPreload pdf
  end.

(** Whether navigation goes through the PDF branch:
    [loadedPDF.document && state.currentExercise?.isPDF]. *)
Definition pdfMode (s : State) (pdf : LoadedPDF) : bool :=
  match document pdf, currentExercise s with
  | Some _, Some ex => isPDF ex
  | _, _ => false
  end.

(** The final [prevPage]. The preload it starts is not awaited by the
    script; here it has finished when the call ends. *)
Definition prevPage (viewer : bool) (s : State) (pdf : LoadedPDF)
    : option (State * LoadedPDF) :=
  if pdfMode s pdf then
    if 1 <? pdf_currentPage pdf then
      let '(s1, pdf1) := renderPDFPage viewer (pdf_currentPage pdf - 1) s pdf in
      Some (s1, preloadAdjacentPages (pdf_currentPage pdf1) pdf1)
    else Some (s, pdf)
  else Some (originalPrevPage s, pdf).

(** The final [nextPage]. *)
Definition nextPage (viewer : bool) (s : State) (pdf : LoadedPDF)
    : option (State * LoadedPDF) :=
  if pdfMode s pdf then
    if pdf_currentPage pdf <? pdf_totalPages pdf then
      let '(s1, pdf1) := renderPDFPage viewer (pdf_currentPage pdf + 1) s pdf in
      Some (s1, preloadAdjacentPages (pdf_currentPage pdf1) pdf1)
    else Some (s, pdf)
  else (λ s1, (s1, pdf)) <$> originalNextPage s.

(** [name.replace('.pdf', '')]: the first occurrence is removed. *)
Fixpoint replace_pdf (fileName : string) : string :=
  match fileName with
  | EmptyString => EmptyString
  | String c rest =>
      if String.prefix ".pdf" fileName
      then String.substring 4 (String.length fileName - 4) fileName
      else String c (replace_pdf rest)
  end.

(** [loadPDFFromFile] for a file the PDF library opens as [doc]. *)
Definition loadPDFFromFile (viewer : bool) (file_name : string)
    (doc : PDFDocument) (s : State) : State * LoadedPDF :=
  let pdf0 :=
    {| document := Some doc; pdf_totalPages := numPages doc;
       pdf_currentPage := 1; fileName := file_name; pageCache := ∅ |} in
  let s0 :=
    set_zoomLevel 1%Q
      (set_currentPage 1
         (set_currentExercise
            (Some {| name := replace_pdf file_name;
                     total_pages := numPages doc;
                     pages := [];
                     isPDF := true |}) s)) in
  let '(s1, pdf1) := renderPDFPage viewer 1 s0 pdf0 in
  (s1, preloadAdjacentPages 1 pdf1).

End Navigation.

(** ** The annotation canvas *)

(** A mouse or touch event, as far as [getCanvasCoords] reads it. *)
Record PointerEvent := {
  touches : option (list Touch);
  mouse_clientX : option Q;
  mouse_clientY : option Q
}.

(** What [localStorage.getItem] and [JSON.parse] make of a stored item. *)
Inductive StoredItem (A : Type) :=
| Absent
| Malformed
| Parsed (value : A).
Arguments Absent {A}.
Arguments Malformed {A}.
Arguments Parsed {A} value.

Module Annotation.

(** [getCanvasCoords], for the canvas in [state.drawing.canvas]. The
    operations are those of the script in its order, on exact rationals; the
    script's binary64 values are these whenever each operation is exact. *)
Definition getCanvasCoords (cv : Canvas) (e : PointerEvent) : Q * Q :=
  let rect := boundingClientRect cv in
  let position :=
    match touches e with
    | Some (touch :: _) => Some (clientX touch, clientY touch)
    | _ =>
        match mouse_clientX e, mouse_clientY e with
        | Some cx, Some cy => Some (cx, cy)
        | _, _ => None
        end
    end in
  match position with
  | None => (0, 0)%Q
  | Some (cx, cy) =>
      let scaleX := (inject_Z (canvas_width cv) / rect_width rect)%Q in
      let scaleY := (inject_Z (canvas_height cv) / rect_height rect)%Q in
      ((cx - rect_left rect) * scaleX, (cy - rect_top rect) * scaleY)%Q
  end.

(** The key of a drawing, [`${name}_${page}`]. *)
Definition drawingKey (exerciseName : string) (page : Z) : string :=
  exerciseName +:+ "_" +:+ Js.String_of_number page.

Definition saveDrawing (s : State) : State :=
  match currentExercise s, canvas (drawing s) with
  | Some ex, Some cv =>
      let key := drawingKey (name ex) (currentPage s) in
      set_drawing
        (set_savedDrawings
           (<[key := toDataURL cv]> (savedDrawings (drawing s))) (drawing s)) s
  | _, _ => s
  end.

(** [restoreDrawing]: the stored image it draws on the canvas, if any. *)
Definition restoreDrawing (s : State) : option string :=
  match currentExercise s, canvas (drawing s), ctx (drawing s) with
  | Some ex, Some _, true =>
      let key := drawingKey (name ex) (currentPage s) in
      let savedData := savedDrawings (drawing s) !! key in
      if Js.truthy savedData then savedData else None
  | _, _, _ => None
  end.

(** [loadBrushSizes], given the stored item of the brush widths. *)
Definition loadBrushSizes (saved : StoredItem (gmap string Z)) (s : State) : State :=
  match saved with
  | Parsed sizes =>
      set_drawing (set_brushSizes (sizes ∪ brushSizes (drawing s)) (drawing s)) s
  | _ => s
  end.

End Annotation.

(** ** Predicates of the specification *)

(** A zoom level on the grid of tenths. *)
Definition multiple_of_tenth (l : Q) : Prop :=
  ∃ k : Z, (l == inject_Z k / 10)%Q.

(** A zoom level within the bounds of the viewer. *)
Definition in_zoom_range (l : Q) : Prop :=
  (2 # 10 <= l)%Q ∧ (l <= 4)%Q.

(** Whether a character occurs in a string. *)
Fixpoint occurs (c : ascii) (s : string) : bool :=
  match s with
  | EmptyString => false
  | String d rest => if Ascii.eqb c d then true else occurs c rest
  end.

(** Equality of letters ignoring case. *)
Definition eq_ignoring_case (a b : string) : Prop :=
  Js.toUpperCase a = Js.toUpperCase b.

(** The [wasCorrect] a call of [selectAnswer] leaves recorded for the
    current page of the exercise. *)
Definition recordedWasCorrect (exerciseName : string) (c : Completion Signal)
    : option bool :=
  match c with
  | Throws => None
  | Returns s' _ => Answers.answeredPage exerciseName s' ≫= wasCorrect
  end.

(** A page on which every answer button and the feedback box exist. *)
Definition full_document : Document :=
  {| answer_btn := λ _, true; feedback := true |}.

(** A state in which a two-page exercise of the category "Verbal" is open at
    page 1, whose answer-key entry is the given letter. *)
Definition open_exercise (key : option string) : State :=
  {| answers :=
       match key with
       | Some k => {[ "Verbal" := {[ "Series" := {[ "1" := k ]} ]} ]}
       | None => ∅
       end;
     currentCategory := Some "Verbal";
     currentExercise :=
       Some {| name := "Series"; total_pages := 2;
               pages := ["p1.png"; "p2.png"]; isPDF := false |};
     currentPage := 1;
     zoomLevel := zoomLevel initial_state;
     stats := stats initial_state;
     answeredPages := answeredPages initial_state;
     drawing := drawing initial_state;
     pageAnswers := pageAnswers initial_state |}.

(** A PDF of three pages, each of which renders. *)
Definition three_page_pdf : PDFDocument :=
  {| numPages := 3;
     renderPage := λ n, Some ("data:image/png;page=" +:+ Js.String_of_number n) |}.

(** A mouse event and a one-finger touch event at a client position. *)
Definition mouse_event (cx cy : Q) : PointerEvent :=
  {| touches := None; mouse_clientX := Some cx; mouse_clientY := Some cy |}.

Definition touch_event (cx cy : Q) : PointerEvent :=
  {| touches := Some [{| clientX := cx; clientY := cy |}];
     mouse_clientX := None; mouse_clientY := None |}.

(** ** The rendered answer panel *)

(** An option button of the panel: its [data-question] and [data-option]
    attributes and whether it carries the class [selected]. *)
Record Button := {
  data_question : string;
  data_option : string;
  selected_class : bool
}.

Module Panel.

(** [state.questionsPerPage || 10]; the property is absent until
    [addMoreQuestions] writes it. *)
Definition numQuestions (questionsPerPage : option Z) : Z :=
  match questionsPerPage with
  | Some n => if n =? 0 then 10 else n
  | None => 10
  end.

(** [addMoreQuestions], on the property it writes. *)
Definition addMoreQuestions (questionsPerPage : option Z) : option Z :=
  Some (numQuestions questionsPerPage + 5).

Definition options : list string := ["A"; "B"; "C"; "D"; "E"].

(** The buttons of one row: one for each option, selected when the option
    is the saved answer. *)
Definition row (savedAnswer : option string) (q : string) (opts : list string)
    : list Button :=
  (λ opt, {| data_question := q;
             data_option := opt;
             selected_class := bool_decide (savedAnswer = Some opt) |})
    <$> opts.

(** The five buttons of the row of question [i], with
    [savedAnswers[i] || null] as the saved answer. *)
Definition renderRow (savedAnswers : gmap string string) (i : Z) : list Button :=
  let savedAnswer :=
    if Js.truthy (savedAnswers !! Js.String_of_number i)
    then savedAnswers !! Js.String_of_number i else None in
  row savedAnswer (Js.String_of_number i) options.

(** [renderAnswersPanel], when the list element exists: the buttons it
    writes, in document order; it throws when no exercise is open. *)
Definition renderAnswersPanel (questionsPerPage : option Z) (s : State)
    : option (list Button) :=
  match currentExercise s with
  | None => None
  | Some ex =>
      let savedAnswers := Answers.getExerciseAnswers (name ex) s in
      Some (seqZ 1 (numQuestions questionsPerPage) ≫= renderRow savedAnswers)
  end.






End Panel.

(** ** Scores *)

Module Scores.

(** [resetStats]; [confirmed] is the answer to the confirmation dialog. *)
Definition resetStats (confirmed : bool) (s : State) : State :=
  if confirmed
  then set_answeredPages ∅
         (set_stats {| stats_correct := 0; stats_incorrect := 0 |} s)
  else s.

(** [showSolution]: the letter it announces, [Some None] when it announces
    that the page has no registered answer, [None] when it throws for want of
    an open exercise. *)
Definition showSolution (s : State) : option (option string) :=
  match currentExercise s with
  | None => None
  | Some ex =>
      let correctAnswer :=
        if Js.truthy (Answers.answerKeyEntry (name ex) s)
        then Js.toUpperCase <$> Answers.answerKeyEntry (name ex) s
        else None in
      Some (if Js.truthy correctAnswer then correctAnswer else None)
  end.

(** [Object.keys(state.answeredPages[exercise.name] || {}).length]. *)
Definition answeredCount (exercise : Exercise) (s : State) : nat :=
  size (default ∅ (answeredPages s !! name exercise)).

(** The progress that [renderExerciseList] shows on the card of an
    exercise, in percent. *)
Definition progress (exercise : Exercise) (s : State) : Z :=
  if 0 <? total_pages exercise
  then Js.Math_round
         (inject_Z (Z.of_nat (answeredCount exercise s))
          / inject_Z (total_pages exercise) * 100)%Q
  else 0.

(** The accuracy that [updateStatsDisplay] shows, in percent. *)
Definition accuracy (s : State) : Z :=
  let total := stats_correct (stats s) + stats_incorrect (stats s) in
  if 0 <? total
  then Js.Math_round (inject_Z (stats_correct (stats s)) / inject_Z total * 100)%Q
  else 0.

(** The number of committed pages, over all exercises, whose record has the
    given verdict. *)
Definition countJudged (verdict : bool)
    (answered : gmap string (gmap string AnsweredPage)) : nat :=
  map_fold
    (λ _ byPage acc,
       (size (filter (λ kv, wasCorrect kv.2 = Some verdict) byPage) + acc)%nat)
    0%nat answered.

(** A step of a session, as far as the scores go: an answer is committed or
    rejected on an exercise whose name is not one that objects inherit, the
    statistics are reset, or something else happens that writes neither the
    counters nor the committed answers. *)
Inductive step : State → State → Prop :=
| step_selectAnswer (doc : Document) (answer : string) (s s' : State)
    (sig : Signal) :
    (∀ ex, currentExercise s = Some ex → Js.inherited (name ex) = false) →
    Answers.selectAnswer doc answer s = Returns s' sig → step s s'
| step_resetStats (confirmed : bool) (s : State) :
    step s (resetStats confirmed s)
| step_other (s s' : State) :
    stats s' = stats s → answeredPages s' = answeredPages s → step s s'.

End Scores.

(** ** The viewer *)

Definition set_currentCategory (c : option string) (s : State) : State :=
  {| answers := answers s; currentCategory := c;
     currentExercise := currentExercise s; currentPage := currentPage s;
     zoomLevel := zoomLevel s; stats := stats s;
     answeredPages := answeredPages s; drawing := drawing s;
     pageAnswers := pageAnswers s |}.

(** What [loadPage] writes to the page: the source it assigns to the image,
    if it assigns one, the text of the page indicator and the [disabled]
    flags of the two navigation buttons. *)
Record PageView := {
  img_src : option string;
  pageIndicator : string;
  prevPageBtn_disabled : bool;
  nextPageBtn_disabled : bool
}.

(** A press of one of the two navigation buttons. *)
Inductive NavAction := PressPrev | PressNext.

Module Viewer.

(** [selectExercise], as far as it writes to the fields of [State]. *)
Definition selectExercise (exercise : Exercise) (s : State) : State :=
  set_zoomLevel 1%Q (set_currentPage 1 (set_currentExercise (Some exercise) s)).

(** [selectCategory]. *)
Definition selectCategory (category : option string) (s : State) : State :=
  set_currentExercise None (set_currentCategory category s).

(** [goBackToList]: of the two declarations of the script the later one is
    in force. *)
Definition goBackToList (s : State) : State :=
  selectCategory (currentCategory s) (set_currentExercise None s).

(** [exercise.pages[index]]. *)
Definition pageAt (exercise : Exercise) (index : Z) : option string :=
  if index <? 0 then None else pages exercise !! Z.to_nat index.

(** [function loadPage()]: [None] when no exercise is open and nothing is
    written. *)
Definition loadPage (s : State) : option PageView :=
  match currentExercise s with
  | None => None
  | Some exercise =>
      Some {| img_src := pageAt exercise (currentPage s - 1);
              pageIndicator :=
                "Página " +:+ Js.String_of_number (currentPage s) +:+ " de "
                +:+ Js.String_of_number (total_pages exercise);
              prevPageBtn_disabled := currentPage s <=? 1;
              nextPageBtn_disabled := total_pages exercise <=? currentPage s |}
  end.

(** A sequence of presses of the navigation buttons, each call finished
    before the next. *)
Fixpoint navigate (viewer : bool) (actions : list NavAction) (s : State)
    (pdf : LoadedPDF) : option (State * LoadedPDF) :=
  match actions with
  | [] => Some (s, pdf)
  | action :: rest =>
      match (match action with
             | PressPrev => Navigation.prevPage viewer s pdf
             | PressNext => Navigation.nextPage viewer s pdf
             end) with
      | Some (s1, pdf1) => navigate viewer rest s1 pdf1
      | None => None
      end
  end.

End Viewer.

(** ** The first version of the script: PDF navigation without a cache *)

Module Legacy.

(** [renderPDFPage] of the first version; the page cache, which that
    version does not have, is left alone. *)
Definition renderPDFPage (viewer : bool) (pageNum : Z)
    (s : State) (pdf : LoadedPDF) : State * LoadedPDF :=
  match document pdf with
  | None => (s, pdf)
  | Some doc =>
      match renderPage doc pageNum with
      | None => (s, pdf)
      | Some _ =>
          if viewer
          then (set_currentPage pageNum s, set_pdf_currentPage pageNum pdf)
          else (s, pdf)
      end
  end.

Definition prevPage (viewer : bool) (s : State) (pdf : LoadedPDF)
    : option (State * LoadedPDF) :=
  if Navigation.pdfMode s pdf then
    if 1 <? pdf_currentPage pdf
    then Some (renderPDFPage viewer (pdf_currentPage pdf - 1) s pdf)
    else Some (s, pdf)
  else Some (Navigation.originalPrevPage s, pdf).

Definition nextPage (viewer : bool) (s : State) (pdf : LoadedPDF)
    : option (State * LoadedPDF) :=
  if Navigation.pdfMode s pdf then
    if pdf_currentPage pdf <? pdf_totalPages pdf
    then Some (renderPDFPage viewer (pdf_currentPage pdf + 1) s pdf)
    else Some (s, pdf)
  else (λ s1, (s1, pdf)) <$> Navigation.originalNextPage s.

End Legacy.

(** The state of a viewing session of the PDF [doc]: the document is loaded
    with its page count, a PDF exercise of that many pages is open,
    [loadedPDF.currentPage] and [state.currentPage] agree and lie within the
    document, and every image in the page cache is the rendering of its
    page. *)
Definition pdf_session (doc : PDFDocument) (s : State) (pdf : LoadedPDF) : Prop :=
  document pdf = Some doc ∧
  pdf_totalPages pdf = numPages doc ∧
  (∃ ex, currentExercise s = Some ex ∧ isPDF ex = true ∧
         total_pages ex = numPages doc) ∧
  pdf_currentPage pdf = currentPage s ∧
  1 ≤ currentPage s ≤ numPages doc ∧
  ∀ n d, pageCache pdf !! Js.String_of_number n = Some d →
         renderPage doc n = Some d.

(** ** Zoom with the mouse wheel *)

(** The two module-level variables of the wheel listener; of the timer only
    whether one is pending matters. *)
Record WheelState := {
  zoomAccumulator : Q;
  zoomTimeout : bool
}.

(** What happens to the wheel listener: a wheel event, or the expiry of the
    50 ms since the last event that set the timer. *)
Inductive WheelEvent :=
| WheelMoved (inside ctrlKey metaKey : bool) (deltaY : Q)
| TimerExpired.

Module Wheel.

Definition initial_wheel : WheelState :=
  {| zoomAccumulator := 0%Q; zoomTimeout := false |}.

(** The [wheel] listener; the flag returned says whether it called
    [preventDefault]. [inside] says whether the image container exists and
    holds the target of the event, or the target is the drawing canvas. The
    deltas are added exactly, which is the script's binary64 sum when they
    are whole numbers ([exactDeltas] below). *)
Definition wheel (inside ctrlKey metaKey : bool) (deltaY : Q) (w : WheelState)
    : WheelState * bool :=
  if inside then
    let isZoomGesture := ctrlKey || metaKey in
    if isZoomGesture
    then ({| zoomAccumulator := (zoomAccumulator w + deltaY)%Q;
             zoomTimeout := true |}, true)
    else (w, false)
  else (w, false).

(** The function the timer runs. *)
Definition timeout (w : WheelState) (s : State) : WheelState * State :=
  let s1 :=
    if Js.gt (Qabs (zoomAccumulator w)) 30 then
      if Js.lt (zoomAccumulator w) 0 then Zoom.zoomIn s else Zoom.zoomOut s
    else s in
  ({| zoomAccumulator := 0%Q; zoomTimeout := false |}, s1).

(** One event; a timer that is not pending does not expire. *)
Definition handle (e : WheelEvent) (w : WheelState) (s : State)
    : WheelState * State :=
  match e with
  | WheelMoved inside ctrlKey metaKey deltaY =>
      ((wheel inside ctrlKey metaKey deltaY w).1, s)
  | TimerExpired => if zoomTimeout w then timeout w s else (w, s)
  end.

Definition run (events : list WheelEvent) (w : WheelState) (s : State)
    : WheelState * State :=
  fold_left (λ ws e, handle e ws.1 ws.2) events (w, s).

(** The sum of the deltas of the wheel events that are zoom gestures, added
    up in the order of the events. *)
Definition gestureDelta (events : list WheelEvent) (start : Q) : Q :=
  fold_left
    (λ acc e,
       match e with
       | WheelMoved true ctrlKey metaKey deltaY =>
           if ctrlKey || metaKey then (acc + deltaY)%Q else acc
       | _ => acc
       end)
    events start.

(** Whether a list of events holds a zoom gesture. *)
Definition hasGesture (events : list WheelEvent) : bool :=
  existsb
    (λ e, match e with
          | WheelMoved true ctrlKey metaKey _ => ctrlKey || metaKey
          | _ => false
          end)
    events.

(** A list of wheel events only. *)
Definition onlyWheel (events : list WheelEvent) : Prop :=
  ∀ e, e ∈ events → e ≠ TimerExpired.

(** A wheel event whose delta is a whole number of at most 2^31 in absolute
    value. *)
Definition wholeDelta (e : WheelEvent) : bool :=
  match e with
  | WheelMoved _ _ _ deltaY =>
      Pos.eqb (Qden deltaY) 1 && (Z.abs (Qnum deltaY) <=? 2 ^ 31)
  | TimerExpired => true
  end.

(** A burst whose deltas the script adds up without rounding: at most 2^20
    events with whole deltas, so that every sum is a whole number below
    2^53. *)
Definition exactDeltas (events : list WheelEvent) : Prop :=
  Z.of_nat (length events) ≤ 2 ^ 20 ∧ forallb wholeDelta events = true.

End Wheel.

(** ** Strokes and brushes *)

Definition set_tool (t : string) (d : Drawing) : Drawing :=
  {| enabled := enabled d; tool := t; color := color d;
     brushSizes := brushSizes d; isDrawing := isDrawing d; lastX := lastX d;
     lastY := lastY d; ctx := ctx d; canvas := canvas d;
     savedDrawings := savedDrawings d |}.

Definition set_isDrawing (b : bool) (d : Drawing) : Drawing :=
  {| enabled := enabled d; tool := tool d; color := color d;
     brushSizes := brushSizes d; isDrawing := b; lastX := lastX d;
     lastY := lastY d; ctx := ctx d; canvas := canvas d;
     savedDrawings := savedDrawings d |}.

Definition set_last (p : Q * Q) (d : Drawing) : Drawing :=
  {| enabled := enabled d; tool := tool d; color := color d;
     brushSizes := brushSizes d; isDrawing := isDrawing d; lastX := p.1;
     lastY := p.2; ctx := ctx d; canvas := canvas d;
     savedDrawings := savedDrawings d |}.

(** A line segment stroked on the canvas, with the settings of the context
    at the time. *)
Record Segment := {
  seg_from : Q * Q;
  seg_to : Q * Q;
  globalCompositeOperation : string;
  strokeStyle : string;
  lineWidth : Z
}.

(** How a handler ends: normally, or with a [TypeError], in both cases with
    the state it has written until then. *)
Inductive Outcome :=
| Completed (s : State)
| Raised (s : State).

(** A change of the brush from the toolbar. *)
Inductive BrushAction :=
| SetTool (t : string)
| SetBrushSize (size : Z).

Module Strokes.

Definition state_of (o : Outcome) : State :=
  match o with Completed s => s | Raised s => s end.

(** [setTool], as far as it writes to [state]. *)
Definition setTool (t : string) (s : State) : State :=
  set_drawing (set_tool t (drawing s)) s.

(** [setBrushSize] for a size that [parseInt] reads as [sizeInt]. *)
Definition setBrushSize (sizeInt : Z) (s : State) : State :=
  set_drawing
    (set_brushSizes (<[tool (drawing s) := sizeInt]> (brushSizes (drawing s)))
       (drawing s)) s.

(** [saveBrushSizes]: the item that storage holds afterwards when it takes
    the write. *)
Definition saveBrushSizes (s : State) : StoredItem (gmap string Z) :=
  Parsed (brushSizes (drawing s)).

(** [state.drawing.brushSizes[state.drawing.tool] || 4]. *)
Definition currentBrushSize (s : State) : Z :=
  match brushSizes (drawing s) !! tool (drawing s) with
  | Some n => if n =? 0 then 4 else n
  | None => 4
  end.

Definition applyBrush (a : BrushAction) (s : State) : State :=
  match a with
  | SetTool t => setTool t s
  | SetBrushSize size => setBrushSize size s
  end.

Section Styles.

(** [hexToRgba], which only builds the text of a colour. *)
Variable hexToRgba : string → Q → string.

(** [startDrawing]. *)
Definition startDrawing (e : PointerEvent) (s : State) : Outcome :=
  if negb (enabled (drawing s)) then Completed s
  else
    let s1 := set_drawing (set_isDrawing true (drawing s)) s in
    match canvas (drawing s1) with
    | None => Raised s1
    | Some cv =>
        let coords := Annotation.getCanvasCoords cv e in
        Completed (set_drawing (set_last coords (drawing s1)) s1)
    end.

(** [draw]: how it ends and the segment it strokes, if it strokes one. *)
Definition draw (e : PointerEvent) (s : State) : Outcome * option Segment :=
  if negb (isDrawing (drawing s)) || negb (enabled (drawing s))
  then (Completed s, None)
  else
    match canvas (drawing s) with
    | None => (Raised s, None)
    | Some cv =>
        let coords := Annotation.getCanvasCoords cv e in
        if negb (ctx (drawing s)) then (Raised s, None)
        else
          let currentBrushSize := currentBrushSize s in
          let '(operation, style) :=
            if decide (tool (drawing s) = "eraser")
            then ("destination-out", "rgba(0,0,0,1)")
            else if decide (tool (drawing s) = "highlighter")
            then ("source-over", hexToRgba (color (drawing s)) (3 # 10))
            else ("source-over", color (drawing s)) in
          (Completed (set_drawing (set_last coords (drawing s)) s),
           Some {| seg_from := (lastX (drawing s), lastY (drawing s));
                   seg_to := coords;
                   globalCompositeOperation := operation;
                   strokeStyle := style;
                   lineWidth := currentBrushSize |})
    end.

(** [handleTouchStart]: it reads the first touch before anything else. *)
Definition handleTouchStart (e : PointerEvent) (s : State) : Outcome :=
  match touches e with
  | Some (_ :: _) => startDrawing e s
  | _ => Raised s
  end.

(** [handleTouchMove], whose body is that of [draw]. *)
Definition handleTouchMove (e : PointerEvent) (s : State)
    : Outcome * option Segment :=
  draw e s.

(** [stopDrawing]. *)
Definition stopDrawing (s : State) : State :=
  if isDrawing (drawing s)
  then Annotation.saveDrawing (set_drawing (set_isDrawing false (drawing s)) s)
  else s.

(** The moves of a stroke one after the other: the state at the end and the
    segments stroked, in order. *)
Fixpoint drawAll (moves : list PointerEvent) (s : State) : State * list Segment :=
  match moves with
  | [] => (s, [])
  | e :: rest =>
      let '(o, seg) := draw e s in
      let '(s', segs) := drawAll rest (state_of o) in
      (s', option_list seg ++ segs)
  end.

End Styles.

(** The pairs of each point of a list with the next one. *)
Fixpoint consecutive (p : Q * Q) (ps : list (Q * Q)) : list ((Q * Q) * (Q * Q)) :=
  match ps with
  | [] => []
  | q :: rest => (p, q) :: consecutive q rest
  end.

End Strokes.

(** A canvas of 800 by 600 pixels shown at half its size, and a state in
    which the exercise of [open_exercise] is open with drawing enabled on
    that canvas. *)
Definition half_size_canvas : Canvas :=
  {| canvas_width := 800; canvas_height := 600;
     boundingClientRect :=
       {| rect_left := 10; rect_top := 20;
          rect_width := 400; rect_height := 300 |};
     toDataURL := "data:image/png;strokes" |}.

Definition sketching : State :=
  set_drawing
    {| enabled := true; tool := "pen"; color := "#ef4444";
       brushSizes := brushSizes (drawing initial_state);
       isDrawing := false; lastX := 0; lastY := 0; ctx := true;
       canvas := Some half_size_canvas; savedDrawings := ∅ |}
    (open_exercise None).

(** ** The stopwatch *)

(** [state.stopwatch]. *)
Record Stopwatch := {
  seconds : Z;
  timerId : option Z;
  isRunning : bool
}.

(** The stopwatch together with the timers of the window: the identifiers of
    the intervals that are set, and the identifier that [setInterval] gives
    out next (identifiers are positive and never given out twice). *)
Record Clock := {
  stopwatch : Stopwatch;
  intervals : gset Z;
  nextTimerId : Z
}.

(** What happens to the stopwatch during a session. *)
Inductive ClockAction :=
| StartTimer
| StopTimer
| ToggleStopwatch
| ResetStopwatch
| SelectExercise
| SecondElapses.

Module Timer.

Definition initial_clock : Clock :=
  {| stopwatch := {| seconds := 0; timerId := None; isRunning := false |};
     intervals := ∅;
     nextTimerId := 1 |}.

Definition startTimer (c : Clock) : Clock :=
  if isRunning (stopwatch c) then c
  else
    {| stopwatch := {| seconds := seconds (stopwatch c);
                       timerId := Some (nextTimerId c);
                       isRunning := true |};
       intervals := intervals c ∪ {[nextTimerId c]};
       nextTimerId := nextTimerId c + 1 |}.

Definition stopTimer (c : Clock) : Clock :=
  match timerId (stopwatch c) with
  | Some id =>
      if id =? 0
      then {| stopwatch := {| seconds := seconds (stopwatch c);
                              timerId := Some id;
                              isRunning := false |};
              intervals := intervals c;
              nextTimerId := nextTimerId c |}
      else {| stopwatch := {| seconds := seconds (stopwatch c);
                              timerId := None;
                              isRunning := false |};
              intervals := intervals c ∖ {[id]};
              nextTimerId := nextTimerId c |}
  | None =>
      {| stopwatch := {| seconds := seconds (stopwatch c);
                         timerId := None;
                         isRunning := false |};
         intervals := intervals c;
         nextTimerId := nextTimerId c |}
  end.

Definition toggleStopwatch (c : Clock) : Clock :=
  if isRunning (stopwatch c) then stopTimer c else startTimer c.

Definition set_seconds (n : Z) (c : Clock) : Clock :=
  {| stopwatch := {| seconds := n;
                     timerId := timerId (stopwatch c);
                     isRunning := isRunning (stopwatch c) |};
     intervals := intervals c;
     nextTimerId := nextTimerId c |}.

Definition resetStopwatch (c : Clock) : Clock :=
  startTimer (set_seconds 0 (stopTimer c)).

(** What [selectExercise] does to the stopwatch. *)
Definition selectExercise (c : Clock) : Clock :=
  startTimer (set_seconds 0 c).

(** One second goes by: the function of every interval that is set runs
    once, and each run adds one to the seconds. *)
Definition secondElapses (c : Clock) : Clock :=
  set_seconds (seconds (stopwatch c) + Z.of_nat (size (intervals c))) c.

Definition act (a : ClockAction) (c : Clock) : Clock :=
  match a with
  | StartTimer => startTimer c
  | StopTimer => stopTimer c
  | ToggleStopwatch => toggleStopwatch c
  | ResetStopwatch => resetStopwatch c
  | SelectExercise => selectExercise c
  | SecondElapses => secondElapses c
  end.

(** [text.padStart(2, '0')]. *)
Definition padStart2 (text : string) : string :=
  match text with
  | EmptyString => "00"
  | String c EmptyString => String "0" (String c EmptyString)
  | _ => text
  end.

(** The text that [updateStopwatchDisplay] writes. *)
Definition display (sw : Stopwatch) : string :=
  let minutes := seconds sw / 60 in
  let secs := Z.rem (seconds sw) 60 in
  padStart2 (Js.String_of_number minutes) +:+ ":"
  +:+ padStart2 (Js.String_of_number secs).

(** The value of a decimal digit. *)
Definition digit (c : ascii) : option Z :=
  let n := Z.of_nat (nat_of_ascii c) in
  if (48 <=? n) && (n <=? 57) then Some (n - 48) else None.

(** A display of the form MM:SS read as a number of seconds. *)
Definition readDisplay (text : string) : option Z :=
  match text with
  | String m1 (String m0 (String ":" (String s1 (String s0 EmptyString)))) =>
      a ← digit m1; b ← digit m0; c ← digit s1; d ← digit s0;
      Some ((10 * a + b) * 60 + (10 * c + d))
  | _ => None
  end.

(** Whether the display of [n] seconds has five characters and reads back
    as [n]. *)
Definition display_reads_back (n : Z) : bool :=
  let text := display {| seconds := n; timerId := None; isRunning := false |} in
  (String.length text =? 5)%nat &&
  bool_decide (readDisplay text = Some n).

End Timer.

(** ** The service worker of [sw.js] *)

Record Request := {
  method : string;
  url : string
}.

Record Response := {
  status : Z;
  body : string
}.

(** How the [fetch] listener leaves a request: not intercepted, or answered
    with a response, [None] when the promise given to [respondWith] resolves
    to [undefined]. *)
Inductive FetchResult :=
| NotIntercepted
| Responded (r : option Response).

Module ServiceWorker.

Definition CACHE_NAME : string := "psicotrain-v2".

Definition urlsToCache : list string :=
  ["/"; "/index.html"; "/styles.css"; "/app.js"; "/manifest.json";
   "/icons/icon-192.png"; "/icons/icon-512.png";
   "/data/exercises.json"; "/data/answers.json";
   "https://cdnjs.cloudflare.com/ajax/libs/pdf.js/3.11.174/pdf.min.js";
   "https://cdnjs.cloudflare.com/ajax/libs/pdf.js/3.11.174/pdf.worker.min.js";
   "https://fonts.googleapis.com/css2?family=Inter:wght@300;400;500;600;700;800&display=swap"].

(** [response.ok]. *)
Definition ok (r : Response) : bool :=
  (200 <=? status r) && (status r <=? 299).

(** [caches.open(name)]: the cache is created when there is none. *)
Definition open (name : string) (storage : gmap string (gmap string Response))
    : gmap string (gmap string Response) :=
  match storage !! name with
  | Some _ => storage
  | None => <[name := ∅]> storage
  end.

Section Network.

(** What the network answers to a GET of a URL, [None] when the fetch
    fails. *)
Variable network : string → option Response.

(** The [install] listener: [cache.addAll] stores the responses when every
    URL is fetched with an [ok] response and stores nothing otherwise, and
    the failure is caught. *)
Definition install (storage : gmap string (gmap string Response))
    : gmap string (gmap string Response) :=
  let storage1 := open CACHE_NAME storage in
  match mapM (λ u, r ← network u; if ok r then Some (u, r) else None)
             urlsToCache with
  | Some entries =>
      <[CACHE_NAME := fold_left (λ cache ur, <[ur.1 := ur.2]> cache) entries
                        (default ∅ (storage1 !! CACHE_NAME))]> storage1
  | None => storage1
  end.

(** The [activate] listener: every cache of another name is deleted. *)
Definition activate (storage : gmap string (gmap string Response))
    : gmap string (gmap string Response) :=
  filter (λ kv, kv.1 = CACHE_NAME) storage.

(** The [fetch] listener, with the revalidation it starts run to its end. *)
Definition fetch (request : Request)
    (storage : gmap string (gmap string Response))
    : FetchResult * gmap string (gmap string Response) :=
  if negb (String.eqb (method request) "GET") then (NotIntercepted, storage)
  else
    let storage1 := open CACHE_NAME storage in
    let cache := default ∅ (storage1 !! CACHE_NAME) in
    let cachedResponse := cache !! url request in
    let storage2 :=
      match network (url request) with
      | Some networkResponse =>
          if status networkResponse =? 200
          then <[CACHE_NAME := <[url request := networkResponse]> cache]> storage1
          else storage1
      | None => storage1
      end in
    (Responded (match cachedResponse with
                | Some r => Some r
                | None => network (url request)
                end),
     storage2).

End Network.

(** The network of a device that is offline. *)
Definition offline : string → option Response := λ _, None.

End ServiceWorker.

(** * Properties *)

(** ** JavaScript primitives *)

Section JsFacts.

Lemma lt_true (x y : Q) : Js.lt x y = true ↔ (x < y)%Q.
Proof.
  unfold Js.lt. rewrite negb_true_iff.
  split; intros H.
  - apply Qnot_le_lt. intros Hle. apply Qle_bool_iff in Hle. congruence.
  - destruct (Qle_bool y x) eqn:E; [|reflexivity].
    apply Qle_bool_iff in E. exfalso. exact (Qlt_not_le _ _ H E).
Qed.

Lemma Math_min_cases (x y : Q) :
  ((x <= y)%Q ∧ Js.Math_min x y = x) ∨ ((y < x)%Q ∧ Js.Math_min x y = y).
Proof.
  unfold Js.Math_min. destruct (Qle_bool x y) eqn:E.
  - left. split; [by apply Qle_bool_iff|reflexivity].
  - right. split; [|reflexivity].
    apply Qnot_le_lt. intros Hle. apply Qle_bool_iff in Hle. congruence.
Qed.

Lemma Math_max_cases (x y : Q) :
  ((x <= y)%Q ∧ Js.Math_max x y = y) ∨ ((y < x)%Q ∧ Js.Math_max x y = x).
Proof.
  unfold Js.Math_max. destruct (Qle_bool x y) eqn:E.
  - left. split; [by apply Qle_bool_iff|reflexivity].
  - right. split; [|reflexivity].
    apply Qnot_le_lt. intros Hle. apply Qle_bool_iff in Hle. congruence.
Qed.

(** Rounding an integer gives it back. *)
Lemma Math_round_integer (k : Z) (x : Q) :
  (x == inject_Z k)%Q → Js.Math_round x = k.
Proof.
  intros Hx. unfold Js.Math_round.
  rewrite (Qfloor_comp _ (inject_Z k + (1 # 2))%Q) by (rewrite Hx; reflexivity).
  unfold Qfloor, Qplus, inject_Z. cbn.
  rewrite Z.mul_1_r.
  symmetry. apply (Z.div_unique _ _ _ 1); lia.
Qed.

Lemma Math_round_mono (x y : Q) :
  (x <= y)%Q → Js.Math_round x ≤ Js.Math_round y.
Proof.
  intros H. unfold Js.Math_round. apply Qfloor_resp_le.
  apply Qplus_le_l. exact H.
Qed.

End JsFacts.

(** ** Zoom *)

Section ZoomFacts.

Import Zoom.

Lemma tenths_le (a b : Z) :
  (inject_Z a / 10 <= inject_Z b / 10)%Q ↔ a ≤ b.
Proof. unfold Qle, Qdiv, Qmult, Qinv, inject_Z. cbn. lia. Qed.

Lemma round_tenth_comp (z z' : Q) :
  (z == z')%Q → round_tenth z = round_tenth z'.
Proof.
  intros H. unfold round_tenth, Js.Math_round.
  rewrite (Qfloor_comp (z * 10 + (1 # 2))%Q (z' * 10 + (1 # 2))%Q);
    [reflexivity | rewrite H; reflexivity].
Qed.

(** Rounding to one decimal leaves a level of the grid as it is. *)
Lemma round_tenth_tenths (k : Z) (z : Q) :
  (z == inject_Z k / 10)%Q → (round_tenth z == inject_Z k / 10)%Q.
Proof.
  intros H. unfold round_tenth.
  rewrite (Math_round_integer k); [reflexivity|].
  rewrite H. field.
Qed.

(** Whatever the level, the rounded level is on the grid. *)
Lemma round_tenth_multiple (z : Q) : multiple_of_tenth (round_tenth z).
Proof. exists (Js.Math_round (z * 10)). reflexivity. Qed.

Lemma four_tenths : (4 == inject_Z 40 / 10)%Q.
Proof. reflexivity. Qed.

Lemma times_ten_le_l (a : Z) (z : Q) :
  (inject_Z a / 10 <= z)%Q → (inject_Z a <= z * 10)%Q.
Proof.
  destruct z as [n d]. unfold Qle, Qdiv, Qmult, Qinv, inject_Z. cbn.
  rewrite ?Pos2Z.inj_mul. lia.
Qed.

Lemma times_ten_le_r (a : Z) (z : Q) :
  (z <= inject_Z a / 10)%Q → (z * 10 <= inject_Z a)%Q.
Proof.
  destruct z as [n d]. unfold Qle, Qdiv, Qmult, Qinv, inject_Z. cbn.
  rewrite ?Pos2Z.inj_mul. lia.
Qed.

(** Rounding keeps a level within the bounds. *)
Lemma round_tenth_range (z : Q) :
  in_zoom_range z → in_zoom_range (round_tenth z).
Proof.
  intros [Hlo Hhi]. unfold round_tenth.
  assert (H2 : Js.Math_round (inject_Z 2) = 2)
    by (apply Math_round_integer; reflexivity).
  assert (H40 : Js.Math_round (inject_Z 40) = 40)
    by (apply Math_round_integer; reflexivity).
  assert (Hl : 2 ≤ Js.Math_round (z * 10)).
  { rewrite <- H2. apply Math_round_mono. apply times_ten_le_l. exact Hlo. }
  assert (Hh : Js.Math_round (z * 10) ≤ 40).
  { rewrite <- H40. apply Math_round_mono. apply times_ten_le_r.
    rewrite <- four_tenths. exact Hhi. }
  split.
  - apply (tenths_le 2). exact Hl.
  - rewrite four_tenths. apply (tenths_le _ 40). exact Hh.
Qed.

Lemma clamp_range (v : Q) :
  in_zoom_range (Js.Math_max (2 # 10) (Js.Math_min 4 v)).
Proof.
  unfold in_zoom_range.
  destruct (Math_min_cases 4 v) as [[H1 ->]|[H1 ->]].
  - destruct (Math_max_cases (2 # 10) 4) as [[_ ->]|[H2 _]].
    + split; [discriminate | apply Qle_refl].
    + exfalso. revert H2. discriminate.
  - destruct (Math_max_cases (2 # 10) v) as [[H2 ->]|[H2 ->]].
    + split; [exact H2 | by apply Qlt_le_weak].
    + split; [apply Qle_refl | discriminate].
Qed.

Lemma zoomIn_level (s : State) :
  zoomLevel (zoomIn s) = round_tenth (Js.Math_min (zoomLevel s + (1 # 10)) 4)%Q.
Proof. reflexivity. Qed.

Lemma zoomOut_level (s : State) :
  zoomLevel (zoomOut s) = round_tenth (Js.Math_max (zoomLevel s - (1 # 10)) (2 # 10))%Q.
Proof. reflexivity. Qed.

(** [zoomIn] and [zoomOut] end on the grid from any level. *)
Lemma zoomIn_multiple (s : State) : multiple_of_tenth (zoomLevel (zoomIn s)).
Proof. rewrite zoomIn_level. apply round_tenth_multiple. Qed.

Lemma zoomOut_multiple (s : State) : multiple_of_tenth (zoomLevel (zoomOut s)).
Proof. rewrite zoomOut_level. apply round_tenth_multiple. Qed.

(** One step up from a level of the grid. *)
Lemma zoomIn_step (s : State) (k : Z) :
  (zoomLevel s == inject_Z k / 10)%Q →
  (zoomLevel (zoomIn s) == inject_Z (Z.min (k + 1) 40) / 10)%Q.
Proof.
  intros Hk. rewrite zoomIn_level.
  assert (Hs : (zoomLevel s + (1 # 10) == inject_Z (k + 1) / 10)%Q).
  { rewrite Hk, inject_Z_plus. field. }
  destruct (Math_min_cases (zoomLevel s + (1 # 10)) 4) as [[Hle ->]|[Hlt ->]].
  - rewrite (round_tenth_comp _ _ Hs).
    rewrite Hs in Hle.
    rewrite four_tenths in Hle. apply (tenths_le (k + 1) 40) in Hle. rewrite Z.min_l by lia.
    by apply round_tenth_tenths.
  - rewrite Hs in Hlt.
    rewrite four_tenths in Hlt.
    assert (40 < k + 1).
    { apply Z.lt_nge. intros Hc. apply (tenths_le (k + 1) 40) in Hc.
      exact (Qlt_not_le _ _ Hlt Hc). }
    rewrite Z.min_r by lia.
    by apply round_tenth_tenths.
Qed.

(** One step down from a level of the grid. *)
Lemma zoomOut_step (s : State) (k : Z) :
  (zoomLevel s == inject_Z k / 10)%Q →
  (zoomLevel (zoomOut s) == inject_Z (Z.max (k - 1) 2) / 10)%Q.
Proof.
  intros Hk. rewrite zoomOut_level.
  assert (Hs : (zoomLevel s - (1 # 10) == inject_Z (k - 1) / 10)%Q).
  { rewrite Hk. unfold Qeq, Qminus, Qplus, Qopp, Qdiv, Qmult, Qinv, inject_Z.
    cbn. lia. }
  destruct (Math_max_cases (zoomLevel s - (1 # 10)) (2 # 10)) as [[Hle ->]|[Hlt ->]].
  - rewrite Hs in Hle.
    apply (tenths_le (k - 1) 2) in Hle. rewrite Z.max_r by lia.
    by apply round_tenth_tenths.
  - rewrite (round_tenth_comp _ _ Hs).
    rewrite Hs in Hlt.
    assert (2 < k - 1).
    { apply Z.lt_nge. intros Hc. apply (tenths_le (k - 1) 2) in Hc.
      exact (Qlt_not_le _ _ Hlt Hc). }
    rewrite Z.max_l by lia.
    by apply round_tenth_tenths.
Qed.

(** The [touchmove] listener either leaves the state alone or stores a
    clamped and rounded level. *)
Lemma touchmove_cases (hypot : Q → Q → Q) (inside : bool)
    (touches : list Touch) (g : Pinch) (s : State) :
  touchmove hypot inside touches g s = s ∨
  ∃ v : Q, zoomLevel (touchmove hypot inside touches g s)
           = round_tenth (Js.Math_max (2 # 10) (Js.Math_min 4 v)).
Proof.
  unfold touchmove.
  destruct inside; [|by left].
  destruct touches as [|touch1 [|touch2 [|]]]; try (by left).
  destruct (Js.gt (initialPinchDistance g) 0); [|by left].
  right. eexists. reflexivity.
Qed.

(** When the pinch update fires, the level it stores is within the bounds
    and on the grid, whatever the level was. *)
Lemma pinch_update_clamped (hypot : Q → Q → Q) (touch1 touch2 : Touch)
    (g : Pinch) (s : State) :
  Js.gt (initialPinchDistance g) 0 = true →
  in_zoom_range (zoomLevel (touchmove hypot true [touch1; touch2] g s)) ∧
  multiple_of_tenth (zoomLevel (touchmove hypot true [touch1; touch2] g s)).
Proof.
  intros Hg. unfold touchmove. rewrite Hg. cbn [zoomLevel set_zoomLevel].
  split.
  - apply round_tenth_range, clamp_range.
  - apply round_tenth_multiple.
Qed.

Lemma in_zoom_range_comp (l l' : Q) :
  (l == l')%Q → in_zoom_range l' → in_zoom_range l.
Proof. intros H [H1 H2]. split; rewrite H; assumption. Qed.

Lemma in_zoom_range_tenths (k : Z) :
  2 ≤ k ≤ 40 → in_zoom_range (inject_Z k / 10).
Proof.
  intros [H1 H2]. split.
  - by apply (tenths_le 2 k).
  - rewrite four_tenths. by apply (tenths_le k 40).
Qed.

(** C1, as the code has it: from a stored level on the grid of tenths and
    within [0.2, 4.0], [zoomIn] and [zoomOut] move the level by exactly one
    tenth, except at 4.0 and at 0.2 respectively, where they leave it
    unchanged; after [zoomIn], [zoomOut] and the pinch update the stored
    level is again within [0.2, 4.0] and a multiple of 0.1. Fit-to-screen is
    not among these operations: it stores the ratio it computes as it is. *)
Theorem zoom_steps_keep_bounds_and_grid (s : State) (k : Z) :
  2 ≤ k ≤ 40 →
  (zoomLevel s == inject_Z k / 10)%Q →
  ((k < 40 → (zoomLevel (zoomIn s) == zoomLevel s + (1 # 10))%Q) ∧
   (k = 40 → (zoomLevel (zoomIn s) == zoomLevel s)%Q) ∧
   (2 < k → (zoomLevel (zoomOut s) == zoomLevel s - (1 # 10))%Q) ∧
   (k = 2 → (zoomLevel (zoomOut s) == zoomLevel s)%Q)) ∧
  (in_zoom_range (zoomLevel (zoomIn s)) ∧
   multiple_of_tenth (zoomLevel (zoomIn s))) ∧
  (in_zoom_range (zoomLevel (zoomOut s)) ∧
   multiple_of_tenth (zoomLevel (zoomOut s))) ∧
  (∀ (hypot : Q → Q → Q) (inside : bool) (touches : list Touch) (g : Pinch),
     in_zoom_range (zoomLevel (touchmove hypot inside touches g s)) ∧
     multiple_of_tenth (zoomLevel (touchmove hypot inside touches g s))).
Proof.
  intros Hk Hs.
  pose proof (zoomIn_step s k Hs) as Hin.
  pose proof (zoomOut_step s k Hs) as Hout.
  split; [|split; [|split]].
  - repeat split.
    + intros Hlt. rewrite Hin, Hs, Z.min_l by lia.
      rewrite inject_Z_plus. field.
    + intros ->. rewrite Hin, Hs. reflexivity.
    + intros Hlt. rewrite Hout, Hs, Z.max_l by lia.
      unfold Qeq, Qminus, Qplus, Qopp, Qdiv, Qmult, Qinv, inject_Z. cbn. lia.
    + intros ->. rewrite Hout, Hs. reflexivity.
  - split; [|apply zoomIn_multiple].
    apply (in_zoom_range_comp _ _ Hin). apply in_zoom_range_tenths. lia.
  - split; [|apply zoomOut_multiple].
    apply (in_zoom_range_comp _ _ Hout). apply in_zoom_range_tenths. lia.
  - intros hypot inside tch g.
    destruct (touchmove_cases hypot inside tch g s) as [-> | [v ->]].
    + split; [|by exists k].
      apply (in_zoom_range_comp _ _ Hs). by apply in_zoom_range_tenths.
    + split; [|apply round_tenth_multiple].
      apply round_tenth_range, clamp_range.
Qed.

Lemma zoom_steps_keep_bounds_and_grid_witness :
  (2 ≤ 10 ≤ 40 ∧ (zoomLevel initial_state == inject_Z 10 / 10)%Q) ∧
  (zoomLevel (zoomIn initial_state) == zoomLevel initial_state + (1 # 10))%Q.
Proof.
  split.
  - split; [lia | reflexivity].
  - destruct (zoom_steps_keep_bounds_and_grid initial_state 10) as [[H _] _].
    + lia.
    + reflexivity.
    + apply H. lia.
Defined.

(** C1 fails as stated: for a container of 1000 by 500 and an image of
    2000 by 500, [fitToScreen] stores 0.48, which is not a multiple of
    0.1. *)
Lemma fitToScreen_leaves_grid :
  ¬ (in_zoom_range
       (zoomLevel (fitToScreen (Some {| clientWidth := 1000; clientHeight := 500 |})
                               (Some {| naturalWidth := 2000; naturalHeight := 500 |})
                               initial_state)) ∧
     multiple_of_tenth
       (zoomLevel (fitToScreen (Some {| clientWidth := 1000; clientHeight := 500 |})
                               (Some {| naturalWidth := 2000; naturalHeight := 500 |})
                               initial_state))).
Proof.
  intros [_ [k Hk]].
  assert (E : zoomLevel
                (fitToScreen (Some {| clientWidth := 1000; clientHeight := 500 |})
                             (Some {| naturalWidth := 2000; naturalHeight := 500 |})
                             initial_state) = (960 # 2000)%Q)
    by (vm_compute; reflexivity).
  rewrite E in Hk. revert Hk.
  unfold Qeq, Qdiv, Qmult, Qinv, inject_Z. cbn. lia.
Qed.

(** Nor does it keep the bounds: a small image in a large container gets a
    level above 4, and [zoomOut] from there stays above 4. *)
Example fitToScreen_leaves_bounds :
  let s := fitToScreen (Some {| clientWidth := 1040; clientHeight := 1040 |})
                       (Some {| naturalWidth := 100; naturalHeight := 100 |})
                       initial_state in
  (zoomLevel s == 10)%Q ∧ (zoomLevel (zoomOut s) == 99 # 10)%Q.
Proof. split; reflexivity. Qed.

(** *** Fit to screen *)

Lemma ratio_lt_swap (a b n m : Z) :
  0 < a → 0 < b → 0 < n → 0 < m →
  (inject_Z a / inject_Z b < inject_Z n / inject_Z m)%Q ↔
  (inject_Z a / inject_Z n < inject_Z b / inject_Z m)%Q.
Proof.
  intros Ha Hb Hn Hm.
  destruct a as [|a|a], b as [|b|b], n as [|n|n], m as [|m|m]; try lia.
  unfold Qlt, Qdiv, Qmult, Qinv, inject_Z. cbn. lia.
Qed.

(** C6: with a container larger than the margin and an image of positive
    size, the level [fitToScreen] chooses by comparing aspect ratios (the
    width-bound ratio when the image is the wider, else the height-bound
    one) is the smaller of the two candidate ratios; for a container of
    1000 by 500 and an image of 2000 by 500 it is the width-bound 960/2000
    and not the height-bound 460/500. *)
Theorem fitToScreen_is_min_of_candidates (s : State) (c : Container) (i : Image) :
  40 < clientWidth c → 40 < clientHeight c →
  0 < naturalWidth i → 0 < naturalHeight i →
  let widthBound := (inject_Z (clientWidth c - 40) / inject_Z (naturalWidth i))%Q in
  let heightBound := (inject_Z (clientHeight c - 40) / inject_Z (naturalHeight i))%Q in
  let imgRatio := (inject_Z (naturalWidth i) / inject_Z (naturalHeight i))%Q in
  let containerRatio :=
    (inject_Z (clientWidth c - 40) / inject_Z (clientHeight c - 40))%Q in
  ((containerRatio < imgRatio)%Q →
     zoomLevel (fitToScreen (Some c) (Some i) s) = widthBound) ∧
  (¬ (containerRatio < imgRatio)%Q →
     zoomLevel (fitToScreen (Some c) (Some i) s) = heightBound) ∧
  (zoomLevel (fitToScreen (Some c) (Some i) s)
   == computeFitZoom_min (clientWidth c, clientHeight c)
                         (naturalWidth i, naturalHeight i) 40)%Q ∧
  let wide :=
    fitToScreen (Some {| clientWidth := 1000; clientHeight := 500 |})
                (Some {| naturalWidth := 2000; naturalHeight := 500 |}) s in
  (zoomLevel wide == 960 # 2000)%Q ∧ ¬ (zoomLevel wide == 460 # 500)%Q.
Proof.
  intros Hcw Hch Hnw Hnh. cbv zeta.
  unfold fitToScreen, computeFitZoom_min, Js.gt. cbn [fst snd].
  destruct (Js.lt _ _) eqn:E.
  - apply lt_true in E.
    split; [reflexivity | split; [by intros [] | split]].
    + cbn [zoomLevel set_zoomLevel]. symmetry. apply Q.min_l.
      apply Qlt_le_weak. apply ratio_lt_swap; [lia.. | exact E].
    + split; [reflexivity | discriminate].
  - assert (Hn : ¬ (inject_Z (clientWidth c - 40) / inject_Z (clientHeight c - 40)
                    < inject_Z (naturalWidth i) / inject_Z (naturalHeight i))%Q).
    { intros H. apply lt_true in H. congruence. }
    split; [by intros H | split; [reflexivity | split]].
    + cbn [zoomLevel set_zoomLevel]. symmetry. apply Q.min_r.
      apply Qnot_lt_le. intros H. apply Hn.
      apply ratio_lt_swap; [lia.. | exact H].
    + split; [reflexivity | discriminate].
Qed.

Lemma fitToScreen_is_min_of_candidates_witness :
  (40 < 1000 ∧ 40 < 500 ∧ 0 < 2000 ∧ 0 < 500) ∧
  (zoomLevel (fitToScreen (Some {| clientWidth := 1000; clientHeight := 500 |})
                          (Some {| naturalWidth := 2000; naturalHeight := 500 |})
                          initial_state)
   == computeFitZoom_min (1000, 500)%Z (2000, 500)%Z 40)%Q.
Proof.
  split.
  - lia.
  - apply (fitToScreen_is_min_of_candidates initial_state
             {| clientWidth := 1000; clientHeight := 500 |}
             {| naturalWidth := 2000; naturalHeight := 500 |}); cbn; lia.
Defined.

End ZoomFacts.


(** ** Property names *)

Section PropertyNames.

(** The decimal rendering of a number determines the number. *)
Lemma String_of_number_inj (a b : Z) :
  Js.String_of_number a = Js.String_of_number b → a = b.
Proof.
  unfold Js.String_of_number. intros H.
  assert (Hnn : ∀ z, Z.to_int z ≠ Decimal.Pos Decimal.Nil ∧
                     Z.to_int z ≠ Decimal.Neg Decimal.Nil).
  { intros [|q|q]; cbn; split; intros [= E]; try discriminate;
      exact (DecimalPos.Unsigned.to_uint_nonnil _ E). }
  apply (f_equal NilZero.int_of_string) in H.
  rewrite !NilZero.isi in H by apply Hnn.
  injection H as H. by apply DecimalZ.to_int_inj.
Qed.

Lemma uint_no_underscore (d : Decimal.uint) :
  occurs "_" (NilEmpty.string_of_uint d) = false.
Proof. induction d; cbn; assumption || reflexivity. Qed.

(** The rendering of a number has no underscore. *)
Lemma String_of_number_no_underscore (n : Z) :
  occurs "_" (Js.String_of_number n) = false.
Proof.
  unfold Js.String_of_number, NilZero.string_of_int, NilZero.string_of_uint.
  destruct (Z.to_int n) as [d|d]; destruct d; cbn;
    reflexivity || apply uint_no_underscore.
Qed.

Lemma occurs_append (c : ascii) (b y : string) :
  occurs c (b +:+ String c y) = true.
Proof.
  induction b as [|e b IH]; unfold String.append; fold String.append; cbn.
  - by rewrite Ascii.eqb_refl.
  - destruct (Ascii.eqb c e); [reflexivity | exact IH].
Qed.

(** A string is cut at its last underscore in one way only. *)
Lemma split_at_last_underscore (a b x y : string) :
  occurs "_" x = false → occurs "_" y = false →
  a +:+ "_" +:+ x = b +:+ "_" +:+ y → a = b ∧ x = y.
Proof.
  intros Hx Hy. revert b.
  induction a as [|c a IH]; intros [|d b] H;
    unfold String.append in H; fold String.append in H.
  - injection H as H. by split.
  - injection H as _ Hr. rewrite Hr, occurs_append in Hx. discriminate.
  - injection H as _ Hr. rewrite <- Hr, occurs_append in Hy. discriminate.
  - injection H as Hc Hr. destruct (IH b Hr) as [-> ->]. by subst.
Qed.

End PropertyNames.

(** ** The answer panel *)

Section AnswerFacts.

Import Answers.





(** *** Committed page answers *)

Lemma toUpperCase_truthy (k : string) :
  Js.truthy (Some k) = true → Js.truthy (Some (Js.toUpperCase k)) = true.
Proof. destruct k; [discriminate | reflexivity]. Qed.

Lemma truthy_nonempty (k : string) : Js.truthy (Some k) = true ↔ k ≠ "".
Proof. destruct k; cbn; split; congruence. Qed.

Lemma upper_ascii_idempotent (c : ascii) :
  Js.upper_ascii (Js.upper_ascii c) = Js.upper_ascii c.
Proof. destruct c as [[] [] [] [] [] [] [] []]; reflexivity. Qed.

Lemma toUpperCase_idempotent (k : string) :
  Js.toUpperCase (Js.toUpperCase k) = Js.toUpperCase k.
Proof.
  induction k as [|c k IH]; cbn; [reflexivity|].
  by rewrite upper_ascii_idempotent, IH.
Qed.

(** A page that has a record rejects the answer and keeps the state. *)
Lemma selectAnswer_rejects (doc : Document) (s : State) (ex : Exercise)
    (r : AnsweredPage) (answer : string) :
  currentExercise s = Some ex →
  answeredPage (name ex) s = Some r →
  selectAnswer doc answer s = Returns s AlreadyAnswered.
Proof. intros Hex Hr. unfold selectAnswer. by rewrite Hex, Hr. Qed.

(** The record of the current page after the assignment that stores it. *)
Lemma answeredPage_stored (s : State) (n : string) (r : AnsweredPage) :
  answeredPage n
    (set_answeredPages
       (<[n := <[pageKey s := r]> (default ∅ (answeredPages s !! n))]>
          (answeredPages s)) s) = Some r.
Proof.
  unfold answeredPage, pageKey. cbn.
  rewrite lookup_insert_eq. cbn. by rewrite lookup_insert_eq.
Qed.

(** What a call that does not find a record does: it throws, or it stores
    the record built from the answer key and counts the answer. *)
Lemma selectAnswer_commits (doc : Document) (s : State) (ex : Exercise)
    (answer : string) :
  currentExercise s = Some ex →
  answeredPage (name ex) s = None →
  let correctAnswer :=
    if Js.truthy (answerKeyEntry (name ex) s)
    then Js.toUpperCase <$> answerKeyEntry (name ex) s else None in
  let isCorrect :=
    if Js.truthy correctAnswer
    then Some (bool_decide (Some answer = correctAnswer)) else None in
  selectAnswer doc answer s = Throws ∧
    (answer_btn doc answer && feedback doc = false) ∨
  ∃ s' sig, selectAnswer doc answer s = Returns s' sig ∧
    sig ≠ AlreadyAnswered ∧
    currentExercise s' = Some ex ∧
    currentPage s' = currentPage s ∧
    answeredPage (name ex) s' =
      Some {| selected := answer; correct := correctAnswer;
              wasCorrect := isCorrect |} ∧
    stats_correct (stats s') =
      stats_correct (stats s) + (if isCorrect is Some true then 1 else 0) ∧
    stats_incorrect (stats s') =
      stats_incorrect (stats s) + (if isCorrect is Some false then 1 else 0).
Proof.
  intros Hex Hnone. cbv zeta. unfold selectAnswer. rewrite Hex, Hnone.
  generalize (if Js.truthy (answerKeyEntry (name ex) s)
              then Js.toUpperCase <$> answerKeyEntry (name ex) s else None).
  intros correctAnswer.
  destruct (answer_btn doc answer && feedback doc); cbn [negb];
    [right | by left].
  destruct correctAnswer as [[|c k]|]; cbn [Js.truthy];
    try destruct (bool_decide _);
    eexists _, _; (split; [reflexivity|]); (split; [discriminate|]);
    (split; [exact Hex|]); (split; [reflexivity|]);
    (split; [apply answeredPage_stored|]); cbn; split; lia.
Qed.

(** C4: once [selectAnswer b] has stored a record for the current page of
    the exercise, [selectAnswer c] on that page ends with the notice that the
    page is answered and in the very state the first call left: the record
    of the page, the map of answered pages and both counters are unchanged. *)
Theorem selectAnswer_second_commit_rejected (doc : Document) (s s1 : State)
    (b c : string) (sig : Signal) :
  selectAnswer doc b s = Returns s1 sig →
  sig ≠ AlreadyAnswered →
  (∃ ex r, currentExercise s1 = Some ex ∧
           answeredPage (name ex) s1 = Some r ∧ selected r = b) ∧
  selectAnswer doc c s1 = Returns s1 AlreadyAnswered.
Proof.
  intros Hfirst Hsig.
  destruct (currentExercise s) as [ex|] eqn:Hex;
    [|unfold selectAnswer in Hfirst; rewrite Hex in Hfirst; discriminate].
  destruct (answeredPage (name ex) s) as [r0|] eqn:Hrec.
  { rewrite (selectAnswer_rejects doc s ex r0 b Hex Hrec) in Hfirst.
    injection Hfirst as _ <-. by destruct Hsig. }
  destruct (selectAnswer_commits doc s ex b Hex Hrec)
    as [[Hthrow _] | (s' & sig' & Hret & _ & Hex' & _ & Hstored & _)].
  { rewrite Hthrow in Hfirst. discriminate. }
  rewrite Hret in Hfirst. injection Hfirst as -> ->.
  split.
  - eexists ex, _. split; [exact Hex'|]. split; [exact Hstored | reflexivity].
  - by apply (selectAnswer_rejects doc s1 ex _ c Hex' Hstored).
Qed.

Lemma selectAnswer_second_commit_rejected_witness :
  ∃ s1, (selectAnswer full_document "B" (open_exercise None)
           = Returns s1 FeedbackNoKey ∧ FeedbackNoKey ≠ AlreadyAnswered) ∧
        selectAnswer full_document "C" s1 = Returns s1 AlreadyAnswered.
Proof.
  eexists. split.
  - split; [reflexivity | discriminate].
  - apply (selectAnswer_second_commit_rejected full_document
             (open_exercise None) _ "B" "C" FeedbackNoKey);
      [reflexivity | discriminate].
Defined.

(** C5 fails as stated: against the key letter "B" the selection "b" is
    recorded as not correct, though the two letters are equal ignoring
    case. *)
Lemma lowercase_selection_not_correct :
  ¬ (recordedWasCorrect "Series"
       (selectAnswer full_document "b" (open_exercise (Some "B"))) = Some true
     ↔ eq_ignoring_case "b" "B").
Proof. intros [_ H]. specialize (H eq_refl). vm_compute in H. discriminate. Qed.

(** C5, as the code has it, for a selection and a key of ASCII characters:
    when the page has no record and the answer key has a non-empty entry for
    it, [selectAnswer] records the upper-cased key letter as the correct one,
    and [wasCorrect] is true exactly when the selection equals that
    upper-cased letter. So a selection in upper case is judged ignoring the
    case of the key letter, and a selection that is not in upper case is
    judged not correct. *)
Theorem selectAnswer_compares_with_uppercased_key (doc : Document)
    (s s' : State) (ex : Exercise) (answer key : string) (sig : Signal) :
  currentExercise s = Some ex →
  answeredPage (name ex) s = None →
  answerKeyEntry (name ex) s = Some key →
  key ≠ "" →
  Js.isASCII key = true →
  Js.isASCII answer = true →
  selectAnswer doc answer s = Returns s' sig →
  ∃ r, answeredPage (name ex) s' = Some r ∧
       selected r = answer ∧
       correct r = Some (Js.toUpperCase key) ∧
       (wasCorrect r = Some true ∨ wasCorrect r = Some false) ∧
       (wasCorrect r = Some true ↔ answer = Js.toUpperCase key) ∧
       (Js.toUpperCase answer = answer →
        (wasCorrect r = Some true ↔ eq_ignoring_case answer key)) ∧
       (Js.toUpperCase answer ≠ answer → wasCorrect r = Some false).
Proof.
  intros Hex Hrec Hkey Hne _ _ Hcall.
  destruct (selectAnswer_commits doc s ex answer Hex Hrec)
    as [[Hthrow _] | (s2 & sig2 & Hret & _ & _ & _ & Hstored & _)].
  { rewrite Hthrow in Hcall. discriminate. }
  rewrite Hret in Hcall. injection Hcall as -> ->.
  rewrite Hkey in Hstored.
  rewrite (proj2 (truthy_nonempty key) Hne) in Hstored.
  change (Js.toUpperCase <$> Some key) with (Some (Js.toUpperCase key)) in Hstored.
  rewrite (toUpperCase_truthy key (proj2 (truthy_nonempty key) Hne)) in Hstored.
  eexists. split; [exact Hstored|]. cbn [selected correct wasCorrect].
  assert (Hiff : Some (bool_decide (Some answer = Some (Js.toUpperCase key)))
                 = Some true ↔ answer = Js.toUpperCase key).
  { split.
    - intros [= H]. apply bool_decide_eq_true in H. congruence.
    - intros ->. by rewrite bool_decide_eq_true_2. }
  split; [reflexivity|]. split; [reflexivity|]. split; [|split; [|split]].
  - destruct (bool_decide _); auto.
  - exact Hiff.
  - intros Hup. rewrite Hiff. unfold eq_ignoring_case. rewrite Hup. reflexivity.
  - intros Hlow. destruct (bool_decide _) eqn:E; [|reflexivity].
    apply bool_decide_eq_true in E. injection E as E.
    exfalso. apply Hlow. rewrite E. apply toUpperCase_idempotent.
Qed.

Lemma selectAnswer_compares_with_uppercased_key_witness :
  ∃ s', (currentExercise (open_exercise (Some "b"))
           = Some {| name := "Series"; total_pages := 2;
                     pages := ["p1.png"; "p2.png"]; isPDF := false |} ∧
         answeredPage "Series" (open_exercise (Some "b")) = None ∧
         answerKeyEntry "Series" (open_exercise (Some "b")) = Some "b" ∧
         "b" ≠ "" ∧
         Js.isASCII "b" = true ∧
         Js.isASCII "B" = true ∧
         selectAnswer full_document "B" (open_exercise (Some "b"))
           = Returns s' FeedbackCorrect) ∧
        ∃ r, answeredPage "Series" s' = Some r ∧ wasCorrect r = Some true.
Proof.
  eexists. split.
  - split; [reflexivity|]. split; [reflexivity|]. split; [reflexivity|].
    split; [discriminate|]. split; [reflexivity|]. split; reflexivity.
  - destruct (selectAnswer_compares_with_uppercased_key full_document
                (open_exercise (Some "b")) _
                {| name := "Series"; total_pages := 2;
                   pages := ["p1.png"; "p2.png"]; isPDF := false |}
                "B" "b" FeedbackCorrect eq_refl eq_refl eq_refl
                ltac:(discriminate) eq_refl eq_refl eq_refl)
      as (r & Hr & _ & _ & _ & Hiff & _).
    exists r. split; [exact Hr|]. apply Hiff. reflexivity.
Defined.

(** C9: on a page with no record and no answer-key entry, [selectAnswer]
    (its button and the feedback box being on the page) records
    [{selected: answer, correct: null, wasCorrect: null}] for the page and
    leaves both counters as they were; and whenever a call of [selectAnswer]
    changes the counters, the answer key has a non-empty entry for the page. *)
Theorem selectAnswer_without_key_entry :
  (∀ (doc : Document) (s : State) (ex : Exercise) (answer : string),
     currentExercise s = Some ex →
     answeredPage (name ex) s = None →
     answerKeyEntry (name ex) s = None →
     answer_btn doc answer = true →
     feedback doc = true →
     ∃ s', selectAnswer doc answer s = Returns s' FeedbackNoKey ∧
           answeredPage (name ex) s' =
             Some {| selected := answer; correct := None; wasCorrect := None |} ∧
           stats s' = stats s) ∧
  (∀ (doc : Document) (s s' : State) (answer : string) (sig : Signal),
     selectAnswer doc answer s = Returns s' sig →
     stats s' ≠ stats s →
     ∃ ex key, currentExercise s = Some ex ∧
               answeredPage (name ex) s = None ∧
               answerKeyEntry (name ex) s = Some key ∧ key ≠ "").
Proof.
  split.
  - intros doc s ex answer Hex Hrec Hkey Hbtn Hfb.
    unfold selectAnswer. rewrite Hex, Hrec, Hkey, Hbtn, Hfb. cbn.
    eexists. split; [reflexivity|]. split; [|reflexivity].
    apply answeredPage_stored.
  - intros doc s s' answer sig Hcall Hstats.
    unfold selectAnswer in Hcall.
    destruct (currentExercise s) as [ex|] eqn:Hex; [|discriminate].
    destruct (answeredPage (name ex) s) eqn:Hrec.
    { injection Hcall as <- _. by destruct Hstats. }
    destruct (negb _); [discriminate|].
    destruct (answerKeyEntry (name ex) s) as [[|ch k]|] eqn:Hkey.
    + cbn in Hcall. injection Hcall as <- _. by destruct Hstats.
    + exists ex, (String ch k). by repeat split.
    + cbn in Hcall. injection Hcall as <- _. by destruct Hstats.
Qed.

Lemma selectAnswer_without_key_entry_witness :
  (currentExercise (open_exercise None)
     = Some {| name := "Series"; total_pages := 2;
               pages := ["p1.png"; "p2.png"]; isPDF := false |} ∧
   answeredPage "Series" (open_exercise None) = None ∧
   answerKeyEntry "Series" (open_exercise None) = None ∧
   answer_btn full_document "D" = true ∧ feedback full_document = true) ∧
  ∃ s', selectAnswer full_document "D" (open_exercise None)
          = Returns s' FeedbackNoKey ∧
        stats s' = stats (open_exercise None).
Proof.
  split.
  - repeat split.
  - destruct (proj1 selectAnswer_without_key_entry full_document
                (open_exercise None)
                {| name := "Series"; total_pages := 2;
                   pages := ["p1.png"; "p2.png"]; isPDF := false |}
                "D" eq_refl eq_refl eq_refl eq_refl eq_refl)
      as (s' & Hcall & _ & Hstats).
    exists s'. by split.
Defined.

End AnswerFacts.

(** ** Page navigation *)

Section NavigationFacts.

Import Navigation.

(** The two functions of the catalogue viewer, on a page within the
    exercise: a step inside the range moves the page by one, a step at the
    end of the range changes nothing. *)
Lemma original_navigation (s : State) (ex : Exercise) :
  currentExercise s = Some ex →
  1 ≤ currentPage s ≤ total_pages ex →
  (currentPage s = 1 → originalPrevPage s = s) ∧
  (1 < currentPage s →
   originalPrevPage s = set_currentPage (currentPage s - 1) s) ∧
  (currentPage s = total_pages ex → originalNextPage s = Some s) ∧
  (currentPage s < total_pages ex →
   originalNextPage s = Some (set_currentPage (currentPage s + 1) s)).
Proof.
  intros Hex Hp. unfold originalPrevPage, originalNextPage. rewrite Hex.
  repeat split; intros H.
  - rewrite H. reflexivity.
  - by rewrite (proj2 (Z.ltb_lt _ _) H).
  - rewrite H, Z.ltb_irrefl. reflexivity.
  - by rewrite (proj2 (Z.ltb_lt _ _) H).
Qed.

(** For an exercise of the catalogue the final [prevPage] and [nextPage]
    are the two functions above, and the page stays within the exercise. *)
Lemma catalogue_navigation (viewer : bool) (s : State) (pdf : LoadedPDF)
    (ex : Exercise) :
  currentExercise s = Some ex →
  isPDF ex = false →
  1 ≤ currentPage s ≤ total_pages ex →
  ∃ sp sn,
    prevPage viewer s pdf = Some (sp, pdf) ∧
    nextPage viewer s pdf = Some (sn, pdf) ∧
    currentPage sp = (if decide (currentPage s = 1)
                      then currentPage s else currentPage s - 1) ∧
    currentPage sn = (if decide (currentPage s = total_pages ex)
                      then currentPage s else currentPage s + 1) ∧
    1 ≤ currentPage sp ≤ total_pages ex ∧
    1 ≤ currentPage sn ≤ total_pages ex.
Proof.
  intros Hex Hpdf Hp.
  assert (Hmode : pdfMode s pdf = false).
  { unfold pdfMode. rewrite Hex, Hpdf. by destruct (document pdf). }
  destruct (original_navigation s ex Hex Hp) as (P1 & P2 & N1 & N2).
  unfold prevPage, nextPage. rewrite Hmode.
  exists (originalPrevPage s).
  destruct (decide (currentPage s = total_pages ex)) as [Hn|Hn].
  - exists s. rewrite (N1 Hn). split; [reflexivity|]. split; [reflexivity|].
    destruct (decide (currentPage s = 1)) as [H1|H1].
    + rewrite (P1 H1). repeat split; lia.
    + rewrite P2 by lia. cbn. repeat split; lia.
  - exists (set_currentPage (currentPage s + 1) s). rewrite N2 by lia.
    split; [reflexivity|]. split; [reflexivity|].
    destruct (decide (currentPage s = 1)) as [H1|H1].
    + rewrite (P1 H1). cbn. repeat split; lia.
    + rewrite P2 by lia. cbn. repeat split; lia.
Qed.

(** In a loaded PDF, a page that is not in the cache and renders becomes the
    current page. *)
Lemma renderPDFPage_rendered (pageNum : Z) (s : State) (pdf : LoadedPDF)
    (doc : PDFDocument) (imageData : string) :
  document pdf = Some doc →
  cached pageNum pdf = false →
  renderPage doc pageNum = Some imageData →
  currentPage (fst (renderPDFPage true pageNum s pdf)) = pageNum ∧
  pdf_currentPage (snd (renderPDFPage true pageNum s pdf)) = pageNum.
Proof.
  intros Hdoc Hc Hr. unfold renderPDFPage. rewrite Hdoc, Hc, Hr. by split.
Qed.

(** A page that is in the cache is shown, and the call returns before the
    current page is written. *)
Lemma renderPDFPage_cached (viewer : bool) (pageNum : Z) (s : State)
    (pdf : LoadedPDF) :
  cached pageNum pdf = true →
  renderPDFPage viewer pageNum s pdf = (s, pdf).
Proof.
  intros Hc. unfold renderPDFPage. rewrite Hc. by destruct (document pdf).
Qed.

Lemma nextPage_cached (viewer : bool) (s : State) (pdf : LoadedPDF) :
  pdfMode s pdf = true →
  cached (pdf_currentPage pdf + 1) pdf = true →
  fst <$> nextPage viewer s pdf = Some s.
Proof.
  intros Hm Hc. unfold nextPage. rewrite Hm.
  destruct (_ <? _); [|reflexivity].
  by rewrite (renderPDFPage_cached _ _ _ _ Hc).
Qed.

Lemma prevPage_cached (viewer : bool) (s : State) (pdf : LoadedPDF) :
  pdfMode s pdf = true →
  cached (pdf_currentPage pdf - 1) pdf = true →
  fst <$> prevPage viewer s pdf = Some s.
Proof.
  intros Hm Hc. unfold prevPage. rewrite Hm.
  destruct (_ <? _); [|reflexivity].
  by rewrite (renderPDFPage_cached _ _ _ _ Hc).
Qed.

(** C3 against the code: after a PDF of three pages is loaded, the exercise
    has three pages and the current page is 1; page 2 has been preloaded into
    the cache, and [nextPage] then leaves the state, and so [currentPage] at
    1, where the claim has it set to 2. *)
Theorem nextPage_on_preloaded_pdf_page :
  let loaded := loadPDFFromFile true "test.pdf" three_page_pdf initial_state in
  currentExercise (fst loaded)
    = Some {| name := "test"; total_pages := 3; pages := []; isPDF := true |} ∧
  currentPage (fst loaded) = 1 ∧
  cached 2 (snd loaded) = true ∧
  fst <$> nextPage true (fst loaded) (snd loaded) = Some (fst loaded).
Proof. vm_compute. repeat split. Qed.

End NavigationFacts.


(** ** The annotation canvas *)

Section AnnotationFacts.

Import Annotation.

Lemma Qpos_nonzero (w : Q) : (0 < w)%Q → ¬ (w == 0)%Q.
Proof. intros Hw E. rewrite E in Hw. exact (Qlt_irrefl 0 Hw). Qed.



(** *** Saved drawings *)

(** Two pairs of an exercise name and a page with the same key are equal. *)
Lemma drawingKey_inj (n n' : string) (p p' : Z) :
  drawingKey n p = drawingKey n' p' → n = n' ∧ p = p'.
Proof.
  unfold drawingKey. intros H.
  apply split_at_last_underscore in H;
    try apply String_of_number_no_underscore.
  destruct H as [-> H]. split; [reflexivity|]. by apply String_of_number_inj.
Qed.

Lemma saveDrawing_savedDrawings (s : State) (ex : Exercise) (cv : Canvas) :
  currentExercise s = Some ex →
  canvas (drawing s) = Some cv →
  savedDrawings (drawing (saveDrawing s))
    = <[drawingKey (name ex) (currentPage s) := toDataURL cv]>
        (savedDrawings (drawing s)) ∧
  currentExercise (saveDrawing s) = currentExercise s ∧
  currentPage (saveDrawing s) = currentPage s ∧
  canvas (drawing (saveDrawing s)) = canvas (drawing s) ∧
  ctx (drawing (saveDrawing s)) = ctx (drawing s).
Proof. intros Hex Hcv. unfold saveDrawing. rewrite Hex, Hcv. by repeat split. Qed.

(** [restoreDrawing] looks at the entry of the current key only. *)
Lemma restoreDrawing_reads_own_key (s s' : State) (ex : Exercise) :
  currentExercise s = Some ex →
  currentExercise s' = Some ex →
  currentPage s' = currentPage s →
  canvas (drawing s') = canvas (drawing s) →
  ctx (drawing s') = ctx (drawing s) →
  savedDrawings (drawing s') !! drawingKey (name ex) (currentPage s)
    = savedDrawings (drawing s) !! drawingKey (name ex) (currentPage s) →
  restoreDrawing s' = restoreDrawing s.
Proof.
  intros Hex Hex' Hp Hcv Hctx Hkey. unfold restoreDrawing.
  by rewrite Hex, Hex', Hp, Hcv, Hctx, Hkey.
Qed.

(** C8: distinct pairs of an exercise name and a page have distinct keys;
    with an exercise open and a canvas, [saveDrawing] stores the canvas image
    under the key of the current exercise and page and leaves every other
    entry, so the entry of every other exercise and page, as it was;
    [restoreDrawing] depends on the entry of the current key only; hence what
    is restored on another page of the exercise is the same with and without
    the save. *)
Theorem saveDrawing_writes_own_key_only :
  (∀ (n n' : string) (p p' : Z),
     drawingKey n p = drawingKey n' p' → n = n' ∧ p = p') ∧
  (∀ (s : State) (ex : Exercise) (cv : Canvas),
     currentExercise s = Some ex →
     canvas (drawing s) = Some cv →
     savedDrawings (drawing (saveDrawing s))
       !! drawingKey (name ex) (currentPage s) = Some (toDataURL cv) ∧
     (∀ k, k ≠ drawingKey (name ex) (currentPage s) →
        savedDrawings (drawing (saveDrawing s)) !! k
        = savedDrawings (drawing s) !! k) ∧
     (∀ n p, (n, p) ≠ (name ex, currentPage s) →
        savedDrawings (drawing (saveDrawing s)) !! drawingKey n p
        = savedDrawings (drawing s) !! drawingKey n p) ∧
     (∀ p, p ≠ currentPage s →
        restoreDrawing (set_currentPage p (saveDrawing s))
        = restoreDrawing (set_currentPage p s))) ∧
  (∀ (s s' : State) (ex : Exercise),
     currentExercise s = Some ex →
     currentExercise s' = Some ex →
     currentPage s' = currentPage s →
     canvas (drawing s') = canvas (drawing s) →
     ctx (drawing s') = ctx (drawing s) →
     savedDrawings (drawing s') !! drawingKey (name ex) (currentPage s)
       = savedDrawings (drawing s) !! drawingKey (name ex) (currentPage s) →
     restoreDrawing s' = restoreDrawing s).
Proof.
  split; [exact drawingKey_inj|]. split; [|exact restoreDrawing_reads_own_key].
  intros s ex cv Hex Hcv.
  destruct (saveDrawing_savedDrawings s ex cv Hex Hcv)
    as (Hsaved & Hex' & Hp' & Hcv' & Hctx').
  assert (Hother : ∀ n p, (n, p) ≠ (name ex, currentPage s) →
            savedDrawings (drawing (saveDrawing s)) !! drawingKey n p
            = savedDrawings (drawing s) !! drawingKey n p).
  { intros n p Hne. rewrite Hsaved. apply lookup_insert_ne.
    intros E. apply drawingKey_inj in E as [<- <-]. by apply Hne. }
  split; [|split; [|split]].
  - rewrite Hsaved. apply lookup_insert_eq.
  - intros k Hk. rewrite Hsaved. by apply lookup_insert_ne.
  - exact Hother.
  - intros p Hp.
    apply (restoreDrawing_reads_own_key (set_currentPage p s) _ ex); cbn;
      try done; try congruence.
    apply Hother. intros [= ?]. by apply Hp.
Qed.

Lemma saveDrawing_writes_own_key_only_witness :
  let cv := {| canvas_width := 800; canvas_height := 600;
               boundingClientRect :=
                 {| rect_left := 0; rect_top := 0;
                    rect_width := 800; rect_height := 600 |};
               toDataURL := "data:image/png;strokes" |} in
  let s := set_drawing
             {| enabled := true; tool := "pen"; color := "#ef4444";
                brushSizes := brushSizes (drawing initial_state);
                isDrawing := false; lastX := 0; lastY := 0; ctx := true;
                canvas := Some cv; savedDrawings := ∅ |}
             (open_exercise None) in
  (currentExercise s
     = Some {| name := "Series"; total_pages := 2;
               pages := ["p1.png"; "p2.png"]; isPDF := false |} ∧
   canvas (drawing s) = Some cv) ∧
  savedDrawings (drawing (saveDrawing s)) !! "Series_1"
    = Some "data:image/png;strokes" ∧
  savedDrawings (drawing (saveDrawing s)) !! drawingKey "Series" 2
    = savedDrawings (drawing s) !! drawingKey "Series" 2.
Proof.
  intros cv s.
  destruct (proj1 (proj2 saveDrawing_writes_own_key_only) s
              {| name := "Series"; total_pages := 2;
                 pages := ["p1.png"; "p2.png"]; isPDF := false |}
              cv eq_refl eq_refl) as (Hown & _ & Hother & _).
  split; [by split|]. split; [exact Hown|].
  apply Hother. discriminate.
Defined.

(** *** Brush widths *)

Lemma loadBrushSizes_lookup (sizes : gmap string Z) (s : State) (t : string) :
  brushSizes (drawing (loadBrushSizes (Parsed sizes) s)) !! t
  = match sizes !! t with
    | Some w => Some w
    | None => brushSizes (drawing s) !! t
    end.
Proof.
  unfold loadBrushSizes. cbn. rewrite lookup_union.
  destruct (sizes !! t), (brushSizes (drawing s) !! t); reflexivity.
Qed.

(** C10: [loadBrushSizes] lays the stored widths over the widths in memory:
    after loading a stored record into the initial state, a tool of the
    record has the stored width, and a tool the record lacks keeps its
    default, 4 for the pen, 12 for the highlighter, 20 for the eraser. In any
    state a tool the record lacks keeps the width it had, and a missing or
    unreadable item changes nothing. *)
Theorem loadBrushSizes_merges_over_defaults :
  (∀ (sizes : gmap string Z) (t : string) (w : Z),
     sizes !! t = Some w →
     brushSizes (drawing (loadBrushSizes (Parsed sizes) initial_state)) !! t
     = Some w) ∧
  (∀ sizes : gmap string Z,
     (sizes !! "pen" = None →
      brushSizes (drawing (loadBrushSizes (Parsed sizes) initial_state)) !! "pen"
      = Some 4) ∧
     (sizes !! "highlighter" = None →
      brushSizes (drawing (loadBrushSizes (Parsed sizes) initial_state))
        !! "highlighter" = Some 12) ∧
     (sizes !! "eraser" = None →
      brushSizes (drawing (loadBrushSizes (Parsed sizes) initial_state)) !! "eraser"
      = Some 20)) ∧
  (∀ (sizes : gmap string Z) (s : State) (t : string),
     sizes !! t = None →
     brushSizes (drawing (loadBrushSizes (Parsed sizes) s)) !! t
     = brushSizes (drawing s) !! t) ∧
  (∀ s : State, loadBrushSizes Absent s = s ∧ loadBrushSizes Malformed s = s).
Proof.
  split; [|split; [|split]].
  - intros sizes t w H. by rewrite loadBrushSizes_lookup, H.
  - intros sizes. repeat split; intros H; by rewrite loadBrushSizes_lookup, H.
  - intros sizes s t H. by rewrite loadBrushSizes_lookup, H.
  - intros s. by split.
Qed.

Lemma loadBrushSizes_merges_over_defaults_witness :
  let s' := loadBrushSizes (Parsed {[ "pen" := 7 ]}) initial_state in
  ((({[ "pen" := 7 ]} : gmap string Z) !! "pen" = Some 7 ∧
    ({[ "pen" := 7 ]} : gmap string Z) !! "highlighter" = None ∧
    ({[ "pen" := 7 ]} : gmap string Z) !! "eraser" = None)) ∧
  brushSizes (drawing s') !! "pen" = Some 7 ∧
  brushSizes (drawing s') !! "highlighter" = Some 12 ∧
  brushSizes (drawing s') !! "eraser" = Some 20.
Proof.
  intros s'.
  destruct loadBrushSizes_merges_over_defaults as (Hin & Hout & _).
  destruct (Hout {[ "pen" := 7 ]}) as (_ & Hh & He).
  split; [by repeat split|].
  split; [by apply (Hin {[ "pen" := 7 ]} "pen" 7)|].
  split; [by apply Hh | by apply He].
Defined.

End AnnotationFacts.

(** ** The rendered answer panel *)

Section PanelFacts.

Import Answers Panel.

Lemma elem_of_row (b : Button) (a : option string) (q : string)
    (opts : list string) :
  b ∈ row a q opts ↔
  ∃ opt, opt ∈ opts ∧
         b = {| data_question := q; data_option := opt;
                selected_class := bool_decide (a = Some opt) |}.
Proof.
  unfold row. rewrite list_elem_of_fmap. split; intros (opt & H1 & H2); eauto.
Qed.

Lemma options_nonempty : "" ∉ options.
Proof.
  unfold options. intros H.
  repeat (apply elem_of_cons in H as [H|H]; [discriminate|]).
  by apply elem_of_nil in H.
Qed.

Lemma options_truthy (opt : string) (v : option string) :
  opt ∈ options →
  (if Js.truthy v then v else None) = Some opt ↔ v = Some opt.
Proof.
  intros Hopt. destruct v as [[|c k]|]; cbn; split; try done.
  intros [= <-]. by destruct options_nonempty.
Qed.

Lemma length_rows (saved : gmap string string) (l : list Z) :
  length (l ≫= renderRow saved) = (5 * length l)%nat.
Proof.
  induction l as [|i l IH]; [reflexivity|].
  rewrite bind_cons, length_app, IH. cbn. lia.
Qed.

(** What is on the rendered panel: five buttons for each question from 1 to
    the question count, of which one carries [selected] exactly when its
    option is the stored answer of its question; so no question shows two
    selected options. *)
Theorem renderAnswersPanel_shows_stored_answers (questionsPerPage : option Z)
    (s : State) (ex : Exercise) :
  currentExercise s = Some ex →
  ∃ panel, renderAnswersPanel questionsPerPage s = Some panel ∧
    length panel = (5 * Z.to_nat (numQuestions questionsPerPage))%nat ∧
    (∀ i opt, 1 ≤ i ≤ numQuestions questionsPerPage → opt ∈ options →
       {| data_question := Js.String_of_number i; data_option := opt;
          selected_class :=
            bool_decide (getExerciseAnswers (name ex) s !! Js.String_of_number i
                         = Some opt) |} ∈ panel) ∧
    (∀ b, b ∈ panel →
       data_option b ∈ options ∧
       (∃ i, 1 ≤ i ≤ numQuestions questionsPerPage ∧
             data_question b = Js.String_of_number i) ∧
       (selected_class b = true ↔
        getExerciseAnswers (name ex) s !! data_question b = Some (data_option b))) ∧
    (∀ b1 b2, b1 ∈ panel → b2 ∈ panel →
       data_question b1 = data_question b2 →
       selected_class b1 = true → selected_class b2 = true → b1 = b2).
Proof.
  intros Hex. unfold renderAnswersPanel. rewrite Hex.
  set (saved := getExerciseAnswers (name ex) s).
  set (n := numQuestions questionsPerPage).
  eexists. split; [reflexivity|].
  assert (Hmem : ∀ b, b ∈ seqZ 1 n ≫= renderRow saved →
            data_option b ∈ options ∧
            (∃ i, 1 ≤ i ≤ n ∧ data_question b = Js.String_of_number i) ∧
            (selected_class b = true ↔
             saved !! data_question b = Some (data_option b))).
  { intros b Hb. apply list_elem_of_bind in Hb as (i & Hb & Hi).
    apply elem_of_seqZ in Hi. unfold renderRow in Hb.
    apply elem_of_row in Hb as (opt & Hopt & ->). cbn.
    split; [exact Hopt|]. split; [exists i; split; [lia | reflexivity]|].
    rewrite bool_decide_eq_true. by apply options_truthy. }
  split; [|split; [|split]].
  - by rewrite length_rows, length_seqZ.
  - intros i opt Hi Hopt. apply list_elem_of_bind. exists i. split.
    + unfold renderRow. apply elem_of_row. exists opt. split; [exact Hopt|].
      f_equal. apply bool_decide_ext. symmetry. by apply options_truthy.
    + apply elem_of_seqZ. lia.
  - exact Hmem.
  - intros b1 b2 H1 H2 Hq S1 S2.
    destruct (Hmem b1 H1) as (_ & _ & I1). destruct (Hmem b2 H2) as (_ & _ & I2).
    apply I1 in S1 as A1. apply I2 in S2 as A2. rewrite Hq in A1.
    destruct b1, b2; cbn in *. congruence.
Qed.














Lemma numQuestions_grown (k : nat) :
  numQuestions (Nat.iter k addMoreQuestions None) = 10 + 5 * Z.of_nat k.
Proof.
  induction k as [|k IH]; [reflexivity|].
  rewrite Nat.iter_succ. unfold addMoreQuestions at 1. rewrite IH.
  unfold numQuestions.
  destruct (Z.eqb_spec (10 + 5 * Z.of_nat k + 5) 0); lia.
Qed.

(** Growing the panel: after [k] calls of [addMoreQuestions] the panel has
    [10 + 5 k] questions, and one more call appends the rows of the next five
    questions to the panel, leaving the rows it had as they were. *)
Theorem addMoreQuestions_appends_rows (k : nat) (s : State) (ex : Exercise) :
  currentExercise s = Some ex →
  let questionsPerPage := Nat.iter k addMoreQuestions None in
  numQuestions questionsPerPage = 10 + 5 * Z.of_nat k ∧
  numQuestions (addMoreQuestions questionsPerPage)
    = numQuestions questionsPerPage + 5 ∧
  ∃ panel,
    renderAnswersPanel questionsPerPage s = Some panel ∧
    renderAnswersPanel (addMoreQuestions questionsPerPage) s
    = Some (panel ++
            (seqZ (numQuestions questionsPerPage + 1) 5
               ≫= renderRow (getExerciseAnswers (name ex) s))).
Proof.
  intros Hex qpp. subst qpp.
  pose proof (numQuestions_grown k) as Hk.
  pose proof (numQuestions_grown (S k)) as HSk.
  rewrite Nat.iter_succ in HSk.
  split; [exact Hk|]. split; [lia|].
  unfold renderAnswersPanel. rewrite Hex.
  eexists. split; [reflexivity|].
  rewrite HSk.
  replace (10 + 5 * Z.of_nat (S k)) with (numQuestions (Nat.iter k addMoreQuestions None) + 5) by lia.
  rewrite seqZ_app by lia. rewrite bind_app.
  by rewrite (Z.add_comm 1).
Qed.

Lemma addMoreQuestions_appends_rows_witness :
  currentExercise (open_exercise None)
    = Some {| name := "Series"; total_pages := 2;
              pages := ["p1.png"; "p2.png"]; isPDF := false |} ∧
  numQuestions (addMoreQuestions (Nat.iter 2 addMoreQuestions None)) = 25.
Proof.
  split; [reflexivity|].
  destruct (addMoreQuestions_appends_rows 2 (open_exercise None)
              {| name := "Series"; total_pages := 2;
                 pages := ["p1.png"; "p2.png"]; isPDF := false |} eq_refl)
    as (H1 & H2 & _).
  rewrite H2, H1. reflexivity.
Defined.



End PanelFacts.

Section PanelWitnesses.

Import Answers Panel.

Lemma renderAnswersPanel_shows_stored_answers_witness :
  currentExercise (open_exercise None)
    = Some {| name := "Series"; total_pages := 2;
              pages := ["p1.png"; "p2.png"]; isPDF := false |} ∧
  ∃ panel, renderAnswersPanel None (open_exercise None) = Some panel ∧
           length panel = 50%nat.
Proof.
  split; [reflexivity|].
  destruct (renderAnswersPanel_shows_stored_answers None (open_exercise None)
              {| name := "Series"; total_pages := 2;
                 pages := ["p1.png"; "p2.png"]; isPDF := false |} eq_refl)
    as (panel & Hp & Hlen & _).
  exists panel. split; [exact Hp | exact Hlen].
Defined.

End PanelWitnesses.

(** ** Scores *)

Section ScoreFacts.

Import Answers Scores.

(** After a confirmed [resetStats] both counters are zero and every page of
    an exercise whose name is not one that objects inherit accepts an answer
    again; a declined one changes nothing. *)
Theorem resetStats_reopens_pages (doc : Document) (s : State) (ex : Exercise)
    (answer : string) :
  currentExercise s = Some ex →
  Js.inherited (name ex) = false →
  answer_btn doc answer = true →
  feedback doc = true →
  stats (resetStats true s) = {| stats_correct := 0; stats_incorrect := 0 |} ∧
  answeredCount ex (resetStats true s) = 0%nat ∧
  (∃ s' sig, selectAnswer doc answer (resetStats true s) = Returns s' sig ∧
             sig ≠ AlreadyAnswered ∧
             (selected <$> answeredPage (name ex) s') = Some answer) ∧
  resetStats false s = s.
Proof.
  intros Hex _ Hbtn Hfb. split; [reflexivity|]. split; [reflexivity|].
  split; [|reflexivity].
  destruct (selectAnswer_commits doc (resetStats true s) ex answer Hex)
    as [[_ Hno] | (s' & sig & Hret & Hsig & _ & _ & Hrec & _)].
  - unfold answeredPage. cbn. by rewrite lookup_empty.
  - rewrite Hbtn, Hfb in Hno. discriminate.
  - exists s', sig. split; [exact Hret|]. split; [exact Hsig|]. by rewrite Hrec.
Qed.

Lemma resetStats_reopens_pages_witness :
  Js.inherited "Series" = false ∧
  ∃ s1,
    selectAnswer full_document "B" (open_exercise None) = Returns s1 FeedbackNoKey ∧
    selectAnswer full_document "C" s1 = Returns s1 AlreadyAnswered ∧
    ∃ s' sig, selectAnswer full_document "C" (resetStats true s1) = Returns s' sig ∧
              sig ≠ AlreadyAnswered.
Proof.
  split; [reflexivity|].
  eexists. split; [reflexivity|]. split; [reflexivity|].
  match goal with
  | |- ∃ s' sig, selectAnswer _ _ (resetStats true ?s1) = _ ∧ _ =>
      destruct (resetStats_reopens_pages full_document s1
                  {| name := "Series"; total_pages := 2;
                     pages := ["p1.png"; "p2.png"]; isPDF := false |} "C"
                  eq_refl eq_refl eq_refl eq_refl)
        as (_ & _ & (s' & sig & H1 & H2 & _) & _)
  end.
  exists s', sig. split; [exact H1 | exact H2].
Defined.

(** [showSolution] and [selectAnswer] read the answer key alike: on a page
    without a record, the letter [showSolution] announces is the letter that
    [selectAnswer] stores as the correct one, and it announces none exactly
    when [selectAnswer] stores none. *)
Theorem showSolution_agrees_with_selectAnswer (doc : Document) (s s' : State)
    (ex : Exercise) (answer : string) (sig : Signal) :
  currentExercise s = Some ex →
  answeredPage (name ex) s = None →
  selectAnswer doc answer s = Returns s' sig →
  ∃ r, answeredPage (name ex) s' = Some r ∧ showSolution s = Some (correct r).
Proof.
  intros Hex Hrec Hcall.
  destruct (selectAnswer_commits doc s ex answer Hex Hrec)
    as [[Hthrow _] | (s2 & sig2 & Hret & _ & _ & _ & Hstored & _)].
  { rewrite Hthrow in Hcall. discriminate. }
  rewrite Hret in Hcall. injection Hcall as -> ->.
  eexists. split; [exact Hstored|]. cbn [correct].
  unfold showSolution. rewrite Hex. f_equal.
  destruct (answerKeyEntry (name ex) s) as [[|c k]|]; reflexivity.
Qed.

Lemma showSolution_agrees_with_selectAnswer_witness :
  ∃ s',
    (currentExercise (open_exercise (Some "b"))
       = Some {| name := "Series"; total_pages := 2;
                 pages := ["p1.png"; "p2.png"]; isPDF := false |} ∧
     answeredPage "Series" (open_exercise (Some "b")) = None ∧
     selectAnswer full_document "A" (open_exercise (Some "b"))
       = Returns s' (FeedbackIncorrect "B")) ∧
    ∃ r, answeredPage "Series" s' = Some r ∧
         showSolution (open_exercise (Some "b")) = Some (correct r).
Proof.
  eexists. split; [by repeat split|].
  exact (showSolution_agrees_with_selectAnswer full_document
           (open_exercise (Some "b")) _
           {| name := "Series"; total_pages := 2;
              pages := ["p1.png"; "p2.png"]; isPDF := false |}
           "A" (FeedbackIncorrect "B") eq_refl eq_refl eq_refl).
Defined.

End ScoreFacts.

Section ScoreInvariants.

Import Answers Scores.

Lemma Math_round_between (x : Q) (a b : Z) :
  (inject_Z a <= x)%Q → (x <= inject_Z b)%Q → a ≤ Js.Math_round x ≤ b.
Proof.
  intros Ha Hb. split.
  - rewrite <- (Math_round_integer a (inject_Z a)) by reflexivity.
    by apply Math_round_mono.
  - rewrite <- (Math_round_integer b (inject_Z b)) by reflexivity.
    by apply Math_round_mono.
Qed.

Lemma percent_bounds (c t : Z) :
  0 ≤ c → 0 < t →
  (inject_Z 0 <= inject_Z c / inject_Z t * 100)%Q ∧
  (c ≤ t → (inject_Z c / inject_Z t * 100 <= inject_Z 100)%Q).
Proof.
  intros Hc Ht. destruct t as [|t|t]; try lia.
  unfold Qle, Qdiv, Qmult, Qinv, inject_Z. cbn.
  rewrite ?Pos2Z.inj_mul. split; [|intros Hle]; nia.
Qed.

Lemma percent_full (t : Z) :
  0 < t → (inject_Z t / inject_Z t * 100 == inject_Z 100)%Q.
Proof.
  intros Ht. destruct t as [|t|t]; try lia.
  unfold Qeq, Qdiv, Qmult, Qinv, inject_Z. cbn.
  rewrite ?Pos2Z.inj_mul. lia.
Qed.

(** The progress on the card of an exercise: 0 for an exercise without
    pages, never negative, at most 100 while no more pages are answered than
    the exercise has, 0 with no answered page and 100 with all of them. *)
Theorem progress_bounds (ex : Exercise) (s : State) :
  (total_pages ex ≤ 0 → progress ex s = 0) ∧
  0 ≤ progress ex s ∧
  (Z.of_nat (answeredCount ex s) ≤ total_pages ex → progress ex s ≤ 100) ∧
  (answeredCount ex s = 0%nat → progress ex s = 0) ∧
  (0 < total_pages ex → Z.of_nat (answeredCount ex s) = total_pages ex →
   progress ex s = 100).
Proof.
  unfold progress.
  destruct (Z.ltb_spec 0 (total_pages ex)) as [Ht|Ht].
  - destruct (percent_bounds (Z.of_nat (answeredCount ex s)) (total_pages ex))
      as [Hlo Hhi]; [lia | lia |].
    split; [lia|]. split; [|split; [|split]].
    + rewrite <- (Math_round_integer 0 (inject_Z 0)) by reflexivity.
      by apply Math_round_mono.
    + intros Hle.
      rewrite <- (Math_round_integer 100 (inject_Z 100)) by reflexivity.
      apply Math_round_mono. by apply Hhi.
    + intros ->. apply Math_round_integer.
      destruct (total_pages ex); try lia.
      unfold Qeq, Qdiv, Qmult, Qinv, inject_Z. cbn. lia.
    + intros _ ->. apply Math_round_integer. by apply percent_full.
  - repeat split; intros; lia.
Qed.

Lemma progress_bounds_witness :
  let ex := {| name := "Series"; total_pages := 0; pages := []; isPDF := false |} in
  total_pages ex ≤ 0 ∧ progress ex initial_state = 0.
Proof.
  intros ex. split; [cbn; lia|].
  apply (proj1 (progress_bounds ex initial_state)). cbn. lia.
Defined.

(** The accuracy on display: with counters that are not negative it is
    between 0 and 100, it is 0 when nothing has been judged, and 100 when
    answers were judged and none of them incorrect. *)
Theorem accuracy_bounds (s : State) :
  0 ≤ stats_correct (stats s) →
  0 ≤ stats_incorrect (stats s) →
  0 ≤ accuracy s ≤ 100 ∧
  (stats_correct (stats s) + stats_incorrect (stats s) = 0 → accuracy s = 0) ∧
  (0 < stats_correct (stats s) → stats_incorrect (stats s) = 0 →
   accuracy s = 100).
Proof.
  intros Hc Hi. unfold accuracy.
  destruct (Z.ltb_spec 0 (stats_correct (stats s) + stats_incorrect (stats s)))
    as [Ht|Ht].
  - destruct (percent_bounds (stats_correct (stats s))
                (stats_correct (stats s) + stats_incorrect (stats s)))
      as [Hlo Hhi]; [lia | lia |].
    split; [|split].
    + apply Math_round_between; [exact Hlo | apply Hhi; lia].
    + lia.
    + intros Hpos ->. rewrite Z.add_0_r. apply Math_round_integer.
      by apply percent_full.
  - split; [lia|]. split; [reflexivity | lia].
Qed.

Lemma accuracy_bounds_witness :
  ∃ s',
    selectAnswer full_document "B" (open_exercise (Some "b"))
      = Returns s' FeedbackCorrect ∧
    (0 ≤ stats_correct (stats s') ∧ 0 ≤ stats_incorrect (stats s')) ∧
    accuracy s' = 100.
Proof.
  eexists. split; [reflexivity|]. split; [split; cbn; lia|].
  match goal with
  | |- accuracy ?s1 = 100 =>
      destruct (accuracy_bounds s1) as (_ & _ & H); [cbn; lia | cbn; lia |]
  end.
  apply H; [cbn; lia | reflexivity].
Defined.

(** What a call that finds no record writes. *)
Lemma selectAnswer_writes (doc : Document) (s s' : State) (ex : Exercise)
    (answer : string) (sig : Signal) :
  currentExercise s = Some ex →
  answeredPage (name ex) s = None →
  selectAnswer doc answer s = Returns s' sig →
  ∃ r,
    answeredPages s'
    = <[name ex := <[pageKey s := r]> (default ∅ (answeredPages s !! name ex))]>
        (answeredPages s) ∧
    selected r = answer ∧
    stats_correct (stats s')
    = stats_correct (stats s) + (if wasCorrect r is Some true then 1 else 0) ∧
    stats_incorrect (stats s')
    = stats_incorrect (stats s) + (if wasCorrect r is Some false then 1 else 0).
Proof.
  intros Hex Hnone. unfold selectAnswer. rewrite Hex, Hnone.
  generalize (if Js.truthy (answerKeyEntry (name ex) s)
              then Js.toUpperCase <$> answerKeyEntry (name ex) s else None).
  intros correctAnswer.
  destruct (answer_btn doc answer && feedback doc); cbn [negb]; [|discriminate].
  destruct correctAnswer as [[|c k]|]; cbn [Js.truthy];
    try destruct (bool_decide _);
    intros [= <- _]; eexists; (split; [reflexivity|]); cbn;
    (split; [reflexivity|]); split; lia.
Qed.

Lemma unanswered_page (s : State) (n : string) :
  answeredPage n s = None →
  default ∅ (answeredPages s !! n) !! pageKey s = None.
Proof.
  unfold answeredPage. destruct (answeredPages s !! n); cbn; [done|].
  intros _. apply lookup_empty.
Qed.

(** The number of answered pages of an exercise counts commits: a call of
    [selectAnswer] that commits adds one page to the count of the open
    exercise, a rejected call adds none, and the counts of the exercises of
    other names stay. *)
Theorem selectAnswer_counts_page_once (doc : Document) (s s' : State)
    (ex : Exercise) (answer : string) (sig : Signal) :
  currentExercise s = Some ex →
  selectAnswer doc answer s = Returns s' sig →
  (sig = AlreadyAnswered → answeredCount ex s' = answeredCount ex s) ∧
  (sig ≠ AlreadyAnswered → answeredCount ex s' = S (answeredCount ex s)) ∧
  (∀ other, name other ≠ name ex →
     answeredCount other s' = answeredCount other s).
Proof.
  intros Hex Hcall.
  destruct (answeredPage (name ex) s) as [r0|] eqn:Hrec.
  - rewrite (selectAnswer_rejects doc s ex r0 answer Hex Hrec) in Hcall.
    injection Hcall as <- <-. by repeat split.
  - destruct (selectAnswer_commits doc s ex answer Hex Hrec)
      as [[Hthrow _] | (s2 & sig2 & Hret & Hsig & _)].
    { rewrite Hthrow in Hcall. discriminate. }
    rewrite Hret in Hcall. injection Hcall as -> ->.
    destruct (selectAnswer_writes doc s s' ex answer sig Hex Hrec Hret)
      as (r & Hpages & _).
    unfold answeredCount. rewrite Hpages.
    split; [done|]. split.
    + intros _. rewrite lookup_insert_eq. cbn.
      apply map_size_insert_None. by apply unanswered_page.
    + intros other Hne. by rewrite lookup_insert_ne.
Qed.

Lemma selectAnswer_counts_page_once_witness :
  ∃ s',
    (currentExercise (open_exercise None)
       = Some {| name := "Series"; total_pages := 2;
                 pages := ["p1.png"; "p2.png"]; isPDF := false |} ∧
     selectAnswer full_document "B" (open_exercise None)
       = Returns s' FeedbackNoKey) ∧
    answeredCount {| name := "Series"; total_pages := 2;
                     pages := ["p1.png"; "p2.png"]; isPDF := false |} s' = 1%nat.
Proof.
  eexists. split; [by split|].
  destruct (selectAnswer_counts_page_once full_document (open_exercise None) _
              {| name := "Series"; total_pages := 2;
                 pages := ["p1.png"; "p2.png"]; isPDF := false |}
              "B" FeedbackNoKey eq_refl eq_refl) as (_ & H & _).
  rewrite H by discriminate. reflexivity.
Defined.

Lemma countJudged_insert (v : bool) (m : gmap string (gmap string AnsweredPage))
    (n pk : string) (r : AnsweredPage) :
  default ∅ (m !! n) !! pk = None →
  countJudged v (<[n := <[pk := r]> (default ∅ (m !! n))]> m)
  = (countJudged v m + (if decide (wasCorrect r = Some v) then 1 else 0))%nat.
Proof.
  intros Hpk. unfold countJudged.
  set (P := λ kv : string * AnsweredPage, wasCorrect kv.2 = Some v).
  set (f := λ (_ : string) (byPage : gmap string AnsweredPage) (acc : nat),
              (size (filter P byPage) + acc)%nat).
  assert (Hcomm : ∀ (m0 : gmap string (gmap string AnsweredPage))
                    (j1 j2 : string) (z1 z2 : gmap string AnsweredPage) (y : nat),
            j1 ≠ j2 → m0 !! j1 = Some z1 → m0 !! j2 = Some z2 →
            f j1 z1 (f j2 z2 y) = f j2 z2 (f j1 z1 y)).
  { intros. unfold f. lia. }
  assert (Hsize : size (filter P (<[pk := r]> (default ∅ (m !! n))))
                  = (size (filter P (default ∅ (m !! n)))
                     + (if decide (wasCorrect r = Some v) then 1 else 0))%nat).
  { destruct (decide (wasCorrect r = Some v)) as [Hv|Hv].
    - rewrite map_filter_insert_True by done.
      rewrite map_size_insert_None; [lia|].
      apply map_lookup_filter_None_2. by left.
    - rewrite map_filter_insert_False by done.
      rewrite delete_id by done. lia. }
  rewrite <- insert_delete_eq.
  rewrite (map_fold_insert_L f);
    [|intros; unfold f; lia | apply lookup_delete_eq].
  unfold f at 1. rewrite Hsize. clear Hsize Hpk.
  destruct (m !! n) as [old|] eqn:Hn; cbn [default].
  - rewrite <- (insert_delete_id m n old Hn) at 2.
    rewrite (map_fold_insert_L f);
      [|intros; unfold f; lia | apply lookup_delete_eq].
    unfold f at 2. unfold id. lia.
  - rewrite delete_id by done.
    rewrite map_filter_empty, map_size_empty. lia.
Qed.

(** The counters count the committed answers: in every state that a session
    reaches from the initial state by committing answers on exercises whose
    names are not ones that objects inherit, resetting the statistics and
    steps that write neither, [stats.correct] is the number of committed
    pages recorded as correct and [stats.incorrect] the number of those
    recorded as incorrect. *)
Theorem counters_count_committed_answers (s : State) :
  rtc step initial_state s →
  stats_correct (stats s) = Z.of_nat (countJudged true (answeredPages s)) ∧
  stats_incorrect (stats s) = Z.of_nat (countJudged false (answeredPages s)).
Proof.
  intros Hreach.
  apply (rtc_ind_r (R := step)
           (λ s, stats_correct (stats s)
                 = Z.of_nat (countJudged true (answeredPages s)) ∧
                 stats_incorrect (stats s)
                 = Z.of_nat (countJudged false (answeredPages s)))
           initial_state); [| |exact Hreach].
  - split; reflexivity.
  - clear s Hreach. intros s1 s2 _ Hstep [IHc IHi].
    destruct Hstep
      as [doc answer s1 s2 sig _ Hcall | confirmed s1 | s1 s2 Hst Hap].
    + destruct (currentExercise s1) as [ex|] eqn:Hex;
        [|unfold selectAnswer in Hcall; rewrite Hex in Hcall; discriminate].
      destruct (answeredPage (name ex) s1) as [r0|] eqn:Hrec.
      { rewrite (selectAnswer_rejects doc s1 ex r0 answer Hex Hrec) in Hcall.
        injection Hcall as <- _. by split. }
      destruct (selectAnswer_writes doc s1 s2 ex answer sig Hex Hrec Hcall)
        as (r & Hpages & _ & Hc & Hi).
      rewrite Hpages, Hc, Hi, IHc, IHi.
      rewrite !countJudged_insert by (by apply unanswered_page).
      destruct (wasCorrect r) as [[|]|];
        repeat case_decide; try congruence; split; lia.
    + destruct confirmed; [|by split]. split; reflexivity.
    + rewrite Hst, Hap. by split.
Qed.

Lemma counters_count_committed_answers_witness :
  ∃ s',
    selectAnswer full_document "A" (open_exercise (Some "b"))
      = Returns s' (FeedbackIncorrect "B") ∧
    rtc step initial_state s' ∧
    stats_incorrect (stats s') = Z.of_nat (countJudged false (answeredPages s')).
Proof.
  eexists. split; [reflexivity|].
  match goal with
  | |- rtc step initial_state ?s1 ∧ _ =>
      assert (Hreach : rtc step initial_state s1)
  end.
  { eapply rtc_l; [apply (step_other _ (open_exercise (Some "b"))); reflexivity|].
    apply rtc_once.
    apply (step_selectAnswer full_document "A" _ _ (FeedbackIncorrect "B"));
      [|reflexivity].
    intros ex [= <-]. reflexivity. }
  split; [exact Hreach|].
  apply (counters_count_committed_answers _ Hreach).
Defined.

End ScoreInvariants.

(** ** The viewer *)

Section ViewerFacts.

Import Navigation Viewer.

Lemma set_currentPage_same (s : State) : set_currentPage (currentPage s) s = s.
Proof. by destruct s. Qed.

(** One press of a navigation button on an exercise of the catalogue. *)
Lemma catalogue_press (viewer : bool) (action : NavAction) (s : State)
    (pdf : LoadedPDF) (ex : Exercise) :
  currentExercise s = Some ex →
  isPDF ex = false →
  1 ≤ currentPage s ≤ total_pages ex →
  ∃ p, 1 ≤ p ≤ total_pages ex ∧
       navigate viewer [action] s pdf = Some (set_currentPage p s, pdf).
Proof.
  intros Hex Hpdf Hp.
  assert (Hmode : pdfMode s pdf = false).
  { unfold pdfMode. rewrite Hex, Hpdf. by destruct (document pdf). }
  destruct action; cbn; unfold prevPage, nextPage; rewrite Hmode.
  - unfold originalPrevPage. destruct (Z.ltb_spec 1 (currentPage s)).
    + exists (currentPage s - 1). split; [lia | reflexivity].
    + exists (currentPage s). split; [lia|]. by rewrite set_currentPage_same.
  - unfold originalNextPage. rewrite Hex. cbn.
    destruct (Z.ltb_spec (currentPage s) (total_pages ex)).
    + exists (currentPage s + 1). split; [lia | reflexivity].
    + exists (currentPage s). split; [lia|]. by rewrite set_currentPage_same.
Qed.

Lemma navigate_cons (viewer : bool) (action : NavAction)
    (actions : list NavAction) (s : State) (pdf : LoadedPDF) :
  navigate viewer (action :: actions) s pdf
  = navigate viewer [action] s pdf ≫= (λ '(s1, pdf1), navigate viewer actions s1 pdf1).
Proof.
  cbn. destruct action;
    [destruct (prevPage viewer s pdf) as [[]|] | destruct (nextPage viewer s pdf) as [[]|]];
    reflexivity.
Qed.

(** Any sequence of presses on an exercise of the catalogue moves the
    current page within the exercise and writes no other field. *)
Lemma catalogue_navigate (viewer : bool) (actions : list NavAction)
    (s : State) (pdf : LoadedPDF) (ex : Exercise) :
  currentExercise s = Some ex →
  isPDF ex = false →
  1 ≤ currentPage s ≤ total_pages ex →
  ∃ p, 1 ≤ p ≤ total_pages ex ∧
       navigate viewer actions s pdf = Some (set_currentPage p s, pdf).
Proof.
  revert s. induction actions as [|action actions IH]; intros s Hex Hpdf Hp.
  - exists (currentPage s). split; [lia|]. cbn. by rewrite set_currentPage_same.
  - destruct (catalogue_press viewer action s pdf ex Hex Hpdf Hp) as (p1 & Hp1 & H1).
    destruct (IH (set_currentPage p1 s) Hex Hpdf Hp1) as (p2 & Hp2 & H2).
    exists p2. split; [exact Hp2|].
    rewrite navigate_cons, H1. cbn -[navigate]. rewrite H2. reflexivity.
Qed.

(** A session on an exercise of the catalogue that has at least one page and
    lists as many page images as it counts pages: after [selectExercise] and
    any sequence of presses of the two navigation buttons, the current page
    is within the exercise and [loadPage] shows the image of that page; each
    navigation button is disabled exactly when pressing it would change
    nothing; the zoom level is the 1 that [selectExercise] set; and the
    answer panel is the one of the first page, the answers being those of the
    exercise and not of a page. *)
Theorem catalogue_session_stays_on_pages (viewer : bool) (ex : Exercise)
    (s : State) (pdf : LoadedPDF) (actions : list NavAction)
    (questionsPerPage : option Z) :
  isPDF ex = false →
  1 ≤ total_pages ex →
  Z.of_nat (length (pages ex)) = total_pages ex →
  ∃ s' view path,
    navigate viewer actions (selectExercise ex s) pdf = Some (s', pdf) ∧
    1 ≤ currentPage s' ≤ total_pages ex ∧
    loadPage s' = Some view ∧
    img_src view = Some path ∧
    pages ex !! Z.to_nat (currentPage s' - 1) = Some path ∧
    (prevPageBtn_disabled view = true ↔
     navigate viewer [PressPrev] s' pdf = Some (s', pdf)) ∧
    (nextPageBtn_disabled view = true ↔
     navigate viewer [PressNext] s' pdf = Some (s', pdf)) ∧
    zoomLevel s' = 1%Q ∧
    Panel.renderAnswersPanel questionsPerPage s'
    = Panel.renderAnswersPanel questionsPerPage (selectExercise ex s).
Proof.
  intros Hpdf Htotal Hlen.
  destruct (catalogue_navigate viewer actions (selectExercise ex s) pdf ex)
    as (p & Hp & Hnav); [reflexivity | exact Hpdf | cbn; lia |].
  set (s' := set_currentPage p (selectExercise ex s)) in *.
  assert (Hpath : is_Some (pages ex !! Z.to_nat (p - 1))).
  { apply lookup_lt_is_Some. lia. }
  destruct Hpath as [path Hpath].
  assert (Hmode : pdfMode s' pdf = false).
  { unfold pdfMode. cbn. rewrite Hpdf. by destruct (document pdf). }
  eexists s', _, path.
  split; [exact Hnav|]. split; [exact Hp|]. split; [reflexivity|].
  cbn [img_src prevPageBtn_disabled nextPageBtn_disabled].
  split; [|split; [exact Hpath|split; [|split; [|split; reflexivity]]]].
  - unfold pageAt. cbn. destruct (Z.ltb_spec (p - 1) 0); [lia | exact Hpath].
  - cbn. unfold prevPage. rewrite Hmode. unfold originalPrevPage. cbn.
    destruct (Z.leb_spec p 1), (Z.ltb_spec 1 p); try lia.
    + split; [reflexivity | done].
    + split; [discriminate|]. intros [= E]. lia.
  - cbn. unfold nextPage. rewrite Hmode. unfold originalNextPage. cbn.
    destruct (Z.leb_spec (total_pages ex) p), (Z.ltb_spec p (total_pages ex));
      try lia.
    + split; [reflexivity | done].
    + split; [discriminate|]. intros [= E]. lia.
Qed.

Lemma catalogue_session_stays_on_pages_witness :
  let ex := {| name := "Series"; total_pages := 2;
               pages := ["p1.png"; "p2.png"]; isPDF := false |} in
  (isPDF ex = false ∧ 1 ≤ total_pages ex ∧
   Z.of_nat (length (pages ex)) = total_pages ex) ∧
  ∃ s', navigate true [PressNext; PressNext; PressNext; PressPrev]
          (selectExercise ex initial_state) initial_loadedPDF
        = Some (s', initial_loadedPDF) ∧
        1 ≤ currentPage s' ≤ 2.
Proof.
  intros ex. split; [by repeat split|].
  destruct (catalogue_session_stays_on_pages true ex initial_state
              initial_loadedPDF [PressNext; PressNext; PressNext; PressPrev] None)
    as (s' & _ & _ & Hnav & Hp & _); [reflexivity | cbn; lia | reflexivity |].
  exists s'. split; [exact Hnav | exact Hp].
Defined.

End ViewerFacts.

(** ** Navigation in a loaded PDF *)

Section PdfFacts.

Import Navigation Viewer.

Lemma cache_insert_sound (doc : PDFDocument) (cache : gmap string string)
    (pageNum : Z) (imageData : string) :
  renderPage doc pageNum = Some imageData →
  (∀ n d, cache !! Js.String_of_number n = Some d → renderPage doc n = Some d) →
  ∀ n d, <[Js.String_of_number pageNum := imageData]> cache
           !! Js.String_of_number n = Some d →
         renderPage doc n = Some d.
Proof.
  intros Hr Hc n d. destruct (decide (n = pageNum)) as [->|Hne].
  - rewrite lookup_insert_eq. by intros [= <-].
  - rewrite lookup_insert_ne; [apply Hc|].
    intros E%String_of_number_inj. congruence.
Qed.

Lemma pdf_session_intro (doc : PDFDocument) (s : State) (pdf : LoadedPDF) :
  document pdf = Some doc →
  pdf_totalPages pdf = numPages doc →
  (∃ ex, currentExercise s = Some ex ∧ isPDF ex = true ∧
         total_pages ex = numPages doc) →
  pdf_currentPage pdf = currentPage s →
  1 ≤ currentPage s ≤ numPages doc →
  (∀ n d, pageCache pdf !! Js.String_of_number n = Some d →
          renderPage doc n = Some d) →
  pdf_session doc s pdf.
Proof.
  intros H1 H2 H3 H4 H5 H6.
  exact (conj H1 (conj H2 (conj H3 (conj H4 (conj H5 H6))))).
Qed.

Lemma renderPDFPage_session (viewer : bool) (doc : PDFDocument) (pageNum : Z)
    (s : State) (pdf : LoadedPDF) :
  pdf_session doc s pdf →
  1 ≤ pageNum ≤ numPages doc →
  pdf_session doc (renderPDFPage viewer pageNum s pdf).1
                  (renderPDFPage viewer pageNum s pdf).2.
Proof.
  intros (Hdoc & Htot & Hex & Hsync & Hp & Hcache) Hn.
  unfold renderPDFPage. rewrite Hdoc.
  destruct (cached pageNum pdf); [by apply pdf_session_intro|].
  destruct (renderPage doc pageNum) as [imageData|] eqn:Hr;
    [|by apply pdf_session_intro].
  destruct viewer; apply pdf_session_intro; cbn; try done;
    by apply cache_insert_sound.
Qed.

Lemma preloadAdjacentPages_session (doc : PDFDocument) (page : Z)
    (s : State) (pdf : LoadedPDF) :
  pdf_session doc s pdf →
  pdf_session doc s (preloadAdjacentPages page pdf) ∧
  pdf_currentPage (preloadAdjacentPages page pdf) = pdf_currentPage pdf.
Proof.
  intros Hs. unfold preloadAdjacentPages.
  destruct Hs as (Hdoc & Hrest). rewrite Hdoc.
  generalize ((if (1 <? page) && negb (cached (page - 1) pdf)
               then [page - 1] else []) ++
              (if (page <? pdf_totalPages pdf) && negb (cached (page + 1) pdf)
               then [page + 1] else [])).
  intros l. revert pdf Hdoc Hrest.
  induction l as [|n l IH]; intros pdf Hdoc Hrest; cbn.
  - by split.
  - destruct (renderPage doc n) as [d|] eqn:Hr.
    + destruct Hrest as (Htot & Hex & Hsync & Hp & Hcache).
      apply (IH (set_pageCache (<[Js.String_of_number n := d]> (pageCache pdf)) pdf));
        [exact Hdoc|].
      split; [exact Htot|]. split; [exact Hex|]. split; [exact Hsync|].
      split; [exact Hp|]. by apply cache_insert_sound.
    + by apply IH.
Qed.

(** One press of a navigation button keeps a PDF session a PDF session. *)
Lemma pdf_press_session (viewer : bool) (doc : PDFDocument)
    (action : NavAction) (s : State) (pdf : LoadedPDF) :
  pdf_session doc s pdf →
  ∃ s' pdf', navigate viewer [action] s pdf = Some (s', pdf') ∧
             pdf_session doc s' pdf'.
Proof.
  intros Hs.
  pose proof Hs as (Hdoc & Htot & (ex & Hex & Hpdf & Hn) & Hsync & Hp & _).
  assert (Hmode : pdfMode s pdf = true)
    by (unfold pdfMode; by rewrite Hdoc, Hex).
  destruct action; cbn; unfold prevPage, nextPage; rewrite Hmode.
  - destruct (Z.ltb_spec 1 (pdf_currentPage pdf)); [|by eexists _, _].
    pose proof (renderPDFPage_session viewer doc (pdf_currentPage pdf - 1) s pdf Hs)
      as Hr.
    destruct (renderPDFPage viewer (pdf_currentPage pdf - 1) s pdf) as [s1 pdf1].
    eexists _, _. split; [reflexivity|].
    apply preloadAdjacentPages_session. apply Hr. lia.
  - destruct (Z.ltb_spec (pdf_currentPage pdf) (pdf_totalPages pdf));
      [|by eexists _, _].
    pose proof (renderPDFPage_session viewer doc (pdf_currentPage pdf + 1) s pdf Hs)
      as Hr.
    destruct (renderPDFPage viewer (pdf_currentPage pdf + 1) s pdf) as [s1 pdf1].
    eexists _, _. split; [reflexivity|].
    apply preloadAdjacentPages_session. apply Hr. lia.
Qed.

Lemma loadPDFFromFile_session (viewer : bool) (file_name : string)
    (doc : PDFDocument) (s : State) :
  1 ≤ numPages doc →
  pdf_session doc (loadPDFFromFile viewer file_name doc s).1
                  (loadPDFFromFile viewer file_name doc s).2.
Proof.
  intros Hn. unfold loadPDFFromFile.
  match goal with
  | |- context [renderPDFPage viewer 1 ?s0 ?pdf0] =>
      assert (H0 : pdf_session doc s0 pdf0)
  end.
  { split; [reflexivity|]. split; [reflexivity|]. split.
    - eexists. by repeat split.
    - split; [reflexivity|]. split; [cbn; lia|].
      intros n d. cbn. by rewrite lookup_empty. }
  apply (renderPDFPage_session viewer doc 1) in H0; [|lia].
  destruct (renderPDFPage viewer 1 _ _) as [s1 pdf1]. cbn.
  by apply preloadAdjacentPages_session.
Qed.

(** Navigation in a PDF of at least one page keeps the session consistent:
    after [loadPDFFromFile] and any sequence of presses of the navigation
    buttons every call has returned, the current page is within the document,
    [loadedPDF.currentPage] equals [state.currentPage], and every image in
    the page cache is the rendering of its own page. *)
Theorem pdf_navigation_keeps_session (viewer : bool) (file_name : string)
    (doc : PDFDocument) (s : State) (actions : list NavAction) :
  1 ≤ numPages doc →
  ∃ s' pdf',
    navigate viewer actions
      (loadPDFFromFile viewer file_name doc s).1
      (loadPDFFromFile viewer file_name doc s).2 = Some (s', pdf') ∧
    1 ≤ currentPage s' ≤ numPages doc ∧
    pdf_currentPage pdf' = currentPage s' ∧
    (∀ n d, pageCache pdf' !! Js.String_of_number n = Some d →
            renderPage doc n = Some d).
Proof.
  intros Hn.
  pose proof (loadPDFFromFile_session viewer file_name doc s Hn) as H0.
  destruct (loadPDFFromFile viewer file_name doc s) as [s0 pdf0]. cbn in *.
  assert (Hgen : ∃ s' pdf', navigate viewer actions s0 pdf0 = Some (s', pdf') ∧
                            pdf_session doc s' pdf').
  { clear Hn. revert s0 pdf0 H0.
    induction actions as [|action actions IH]; intros s0 pdf0 H0.
    - by eexists _, _.
    - destruct (pdf_press_session viewer doc action s0 pdf0 H0)
        as (s1 & pdf1 & H1 & Hs1).
      destruct (IH s1 pdf1 Hs1) as (s2 & pdf2 & H2 & Hs2).
      exists s2, pdf2. split; [|exact Hs2].
      rewrite navigate_cons, H1. exact H2. }
  destruct Hgen as (s' & pdf' & Hnav & _ & _ & _ & Hsync & Hp & Hcache).
  by exists s', pdf'.
Qed.

Lemma pdf_navigation_keeps_session_witness :
  1 ≤ numPages three_page_pdf ∧
  ∃ s' pdf',
    navigate true [PressNext; PressPrev; PressNext]
      (loadPDFFromFile true "test.pdf" three_page_pdf initial_state).1
      (loadPDFFromFile true "test.pdf" three_page_pdf initial_state).2
    = Some (s', pdf') ∧
    1 ≤ currentPage s' ≤ 3.
Proof.
  split; [cbn; lia|].
  destruct (pdf_navigation_keeps_session true "test.pdf" three_page_pdf
              initial_state [PressNext; PressPrev; PressNext])
    as (s' & pdf' & Hnav & Hp & _); [cbn; lia|].
  exists s', pdf'. split; [exact Hnav | exact Hp].
Defined.

End PdfFacts.

Section PdfStuck.

Import Navigation Viewer.

(** What [loadPDFFromFile] leaves when the second page renders. *)
Lemma loadPDFFromFile_preloads_second_page (file_name : string)
    (doc : PDFDocument) (s : State) (d2 : string) :
  2 ≤ numPages doc →
  renderPage doc 2 = Some d2 →
  d2 ≠ "" →
  let loaded := loadPDFFromFile true file_name doc s in
  document loaded.2 = Some doc ∧
  pdfMode loaded.1 loaded.2 = true ∧
  pdf_currentPage loaded.2 = 1 ∧
  currentPage loaded.1 = 1 ∧
  pdf_totalPages loaded.2 = numPages doc ∧
  cached 2 loaded.2 = true.
Proof.
  intros Hn H2 Hd2. cbv zeta.
  assert (Ht : Js.truthy (Some d2) = true) by (by destruct d2).
  assert (H12 : (1 <? numPages doc) = true) by (apply Z.ltb_lt; lia).
  unfold loadPDFFromFile.
  match goal with
  | |- context [renderPDFPage true 1 ?s0 ?pdf0] =>
      assert (Hr : ∃ s1 pdf1,
                renderPDFPage true 1 s0 pdf0 = (s1, pdf1) ∧
                document pdf1 = Some doc ∧
                pdf_currentPage pdf1 = 1 ∧
                pdf_totalPages pdf1 = numPages doc ∧
                currentPage s1 = 1 ∧
                (isPDF <$> currentExercise s1) = Some true ∧
                pageCache pdf1 !! "2" = None)
  end.
  { unfold renderPDFPage, cached. cbn. rewrite lookup_empty. cbn.
    destruct (renderPage doc 1) as [d1|]; eexists _, _;
      (split; [reflexivity|]); cbn; by repeat split. }
  destruct Hr as (s1 & pdf1 & -> & Hdoc & Hcur & Htot & Hpage & Hex & Hc2).
  cbn [fst snd].
  assert (Hpre : preloadAdjacentPages 1 pdf1
                 = set_pageCache (<["2" := d2]> (pageCache pdf1)) pdf1).
  { unfold preloadAdjacentPages, cached. rewrite Hdoc, Htot, H12.
    change (Js.String_of_number (1 + 1)) with "2". rewrite Hc2.
    cbn. change (1 + 1) with 2. by rewrite H2. }
  rewrite Hpre. unfold pdfMode, cached. cbn.
  rewrite Hdoc, lookup_insert_eq, Ht.
  destruct (currentExercise s1) as [ex|]; [|discriminate].
  injection Hex as ->. by repeat split.
Qed.

(** Navigation in a loaded PDF does not leave the first page: when the
    document has at least two pages and its second page has been rendered by
    the preload that [loadPDFFromFile] starts, every sequence of presses of
    the navigation buttons returns the very state that loading left, with
    the current page at 1. *)
Theorem pdf_navigation_stays_on_first_page (file_name : string)
    (doc : PDFDocument) (s : State) (d2 : string) (actions : list NavAction) :
  2 ≤ numPages doc →
  renderPage doc 2 = Some d2 →
  d2 ≠ "" →
  let loaded := loadPDFFromFile true file_name doc s in
  navigate true actions loaded.1 loaded.2 = Some loaded ∧
  currentPage loaded.1 = 1 ∧
  (total_pages <$> currentExercise loaded.1) = Some (numPages doc).
Proof.
  intros Hn H2 Hd2 loaded.
  destruct (loadPDFFromFile_preloads_second_page file_name doc s d2 Hn H2 Hd2)
    as (Hdoc & Hmode & Hcur & Hpage & Htot & Hc2).
  fold loaded in Hdoc, Hmode, Hcur, Hpage, Htot, Hc2.
  assert (Hex : (total_pages <$> currentExercise loaded.1) = Some (numPages doc)).
  { subst loaded. unfold loadPDFFromFile, renderPDFPage. cbn.
    destruct (cached 1 _); [reflexivity|].
    by destruct (renderPage doc 1). }
  split; [|by split].
  destruct loaded as [s0 pdf0]. cbn in *.
  assert (Hpre : preloadAdjacentPages 1 pdf0 = pdf0).
  { unfold preloadAdjacentPages. rewrite Hdoc.
    change (1 + 1) with 2. rewrite Hc2. cbn. by rewrite andb_false_r. }
  assert (Hpress : ∀ action, navigate true [action] s0 pdf0 = Some (s0, pdf0)).
  { intros [|]; cbn; unfold prevPage, nextPage; rewrite Hmode, Hcur.
    - reflexivity.
    - destruct (1 <? pdf_totalPages pdf0); [|reflexivity].
      change (1 + 1) with 2.
      rewrite (renderPDFPage_cached true 2 s0 pdf0 Hc2).
      by rewrite Hcur, Hpre. }
  induction actions as [|action actions IH]; [reflexivity|].
  rewrite navigate_cons, Hpress. exact IH.
Qed.

Lemma pdf_navigation_stays_on_first_page_witness :
  (2 ≤ numPages three_page_pdf ∧
   renderPage three_page_pdf 2 = Some "data:image/png;page=2" ∧
   "data:image/png;page=2" ≠ "") ∧
  (currentPage <$>
     (fst <$> navigate true [PressNext; PressNext; PressPrev; PressNext]
                (loadPDFFromFile true "test.pdf" three_page_pdf initial_state).1
                (loadPDFFromFile true "test.pdf" three_page_pdf initial_state).2))
  = Some 1.
Proof.
  split; [split; [cbn; lia | split; [reflexivity | discriminate]]|].
  destruct (pdf_navigation_stays_on_first_page "test.pdf" three_page_pdf
              initial_state "data:image/png;page=2"
              [PressNext; PressNext; PressPrev; PressNext])
    as (Hnav & Hpage & _); [cbn; lia | reflexivity | discriminate |].
  rewrite Hnav. cbn [fmap option_fmap option_map fst]. by rewrite Hpage.
Defined.

(** In the first version of the script, which has no page cache, a press of
    the next or the previous button of a loaded PDF always renders the page,
    and when the page renders both [loadedPDF.currentPage] and
    [state.currentPage] become its number. *)
Theorem legacy_pdf_navigation_moves (s : State) (pdf : LoadedPDF)
    (doc : PDFDocument) :
  pdfMode s pdf = true →
  document pdf = Some doc →
  (pdf_currentPage pdf < pdf_totalPages pdf →
   is_Some (renderPage doc (pdf_currentPage pdf + 1)) →
   ∃ s' pdf', Legacy.nextPage true s pdf = Some (s', pdf') ∧
              currentPage s' = pdf_currentPage pdf + 1 ∧
              pdf_currentPage pdf' = pdf_currentPage pdf + 1) ∧
  (1 < pdf_currentPage pdf →
   is_Some (renderPage doc (pdf_currentPage pdf - 1)) →
   ∃ s' pdf', Legacy.prevPage true s pdf = Some (s', pdf') ∧
              currentPage s' = pdf_currentPage pdf - 1 ∧
              pdf_currentPage pdf' = pdf_currentPage pdf - 1) ∧
  (pdf_totalPages pdf ≤ pdf_currentPage pdf →
   Legacy.nextPage true s pdf = Some (s, pdf)) ∧
  (pdf_currentPage pdf ≤ 1 → Legacy.prevPage true s pdf = Some (s, pdf)).
Proof.
  intros Hmode Hdoc.
  unfold Legacy.nextPage, Legacy.prevPage, Legacy.renderPDFPage.
  rewrite Hmode, Hdoc. repeat split.
  - intros Hlt [d Hd]. rewrite (proj2 (Z.ltb_lt _ _) Hlt), Hd.
    by eexists _, _.
  - intros Hlt [d Hd]. rewrite (proj2 (Z.ltb_lt _ _) Hlt), Hd.
    by eexists _, _.
  - intros Hle. by rewrite (proj2 (Z.ltb_ge _ _) Hle).
  - intros Hle. by rewrite (proj2 (Z.ltb_ge _ _) Hle).
Qed.

Lemma legacy_pdf_navigation_moves_witness :
  let loaded := loadPDFFromFile true "test.pdf" three_page_pdf initial_state in
  (pdfMode loaded.1 loaded.2 = true ∧ document loaded.2 = Some three_page_pdf) ∧
  ∃ s' pdf', Legacy.nextPage true loaded.1 loaded.2 = Some (s', pdf') ∧
             currentPage s' = 2.
Proof.
  intros loaded. split; [by split|].
  destruct (legacy_pdf_navigation_moves loaded.1 loaded.2 three_page_pdf
              eq_refl eq_refl) as (Hnext & _).
  destruct Hnext as (s' & pdf' & H1 & H2 & _);
    [reflexivity | eexists; reflexivity |].
  exists s', pdf'. split; [exact H1 | exact H2].
Defined.

End PdfStuck.

(** ** Zoom: steps, wheel and pinch *)

Section ZoomComposition.

Import Zoom Wheel.

(** [n] steps up or down from a level of the grid: the level moves by [n]
    tenths and stops at 4.0 or at 0.2. *)
Theorem zoom_steps_iterated (n : nat) (s : State) (k : Z) :
  2 ≤ k ≤ 40 →
  (zoomLevel s == inject_Z k / 10)%Q →
  (zoomLevel (Nat.iter n zoomIn s) == inject_Z (Z.min (k + Z.of_nat n) 40) / 10)%Q ∧
  (zoomLevel (Nat.iter n zoomOut s) == inject_Z (Z.max (k - Z.of_nat n) 2) / 10)%Q.
Proof.
  intros Hk Hs. induction n as [|n [IHin IHout]].
  - cbn. rewrite Z.min_l, Z.max_l by lia.
    rewrite Z.add_0_r, Z.sub_0_r. by split.
  - rewrite !Nat.iter_succ. split.
    + rewrite (zoomIn_step _ _ IHin).
      replace (Z.min (Z.min (k + Z.of_nat n) 40 + 1) 40)
        with (Z.min (k + Z.of_nat (S n)) 40) by lia.
      reflexivity.
    + rewrite (zoomOut_step _ _ IHout).
      replace (Z.max (Z.max (k - Z.of_nat n) 2 - 1) 2)
        with (Z.max (k - Z.of_nat (S n)) 2) by lia.
      reflexivity.
Qed.

Lemma zoom_steps_iterated_witness :
  (2 ≤ 10 ≤ 40 ∧ (zoomLevel initial_state == inject_Z 10 / 10)%Q) ∧
  (zoomLevel (Nat.iter 35 zoomIn initial_state) == 4)%Q ∧
  (zoomLevel (Nat.iter 3 zoomOut initial_state) == 7 # 10)%Q.
Proof.
  split; [split; [lia | reflexivity]|].
  split.
  - destruct (zoom_steps_iterated 35 initial_state 10) as [H _];
      [lia | reflexivity |].
    rewrite H. reflexivity.
  - destruct (zoom_steps_iterated 3 initial_state 10) as [_ H];
      [lia | reflexivity |].
    rewrite H. reflexivity.
Defined.

(** A step up and a step down undo each other on the grid, except at the
    bound that stops the first of the two: from 4.0 a step up and a step down
    give 3.9, from 0.2 a step down and a step up give 0.3. *)
Theorem zoom_steps_inverse (s : State) (k : Z) :
  2 ≤ k ≤ 40 →
  (zoomLevel s == inject_Z k / 10)%Q →
  (k < 40 → (zoomLevel (zoomOut (zoomIn s)) == zoomLevel s)%Q) ∧
  (2 < k → (zoomLevel (zoomIn (zoomOut s)) == zoomLevel s)%Q) ∧
  (k = 40 → (zoomLevel (zoomOut (zoomIn s)) == 39 # 10)%Q) ∧
  (k = 2 → (zoomLevel (zoomIn (zoomOut s)) == 3 # 10)%Q).
Proof.
  intros Hk Hs.
  pose proof (zoomOut_step _ _ (zoomIn_step s k Hs)) as Hoi.
  pose proof (zoomIn_step _ _ (zoomOut_step s k Hs)) as Hio.
  repeat split.
  - intros Hlt. rewrite Hoi, Hs.
    replace (Z.max (Z.min (k + 1) 40 - 1) 2) with k by lia. reflexivity.
  - intros Hlt. rewrite Hio, Hs.
    replace (Z.min (Z.max (k - 1) 2 + 1) 40) with k by lia. reflexivity.
  - intros ->. rewrite Hoi. reflexivity.
  - intros ->. rewrite Hio. reflexivity.
Qed.

Lemma zoom_steps_inverse_witness :
  (2 ≤ 10 ≤ 40 ∧ (zoomLevel initial_state == inject_Z 10 / 10)%Q) ∧
  (zoomLevel (zoomOut (zoomIn initial_state)) == zoomLevel initial_state)%Q.
Proof.
  split; [split; [lia | reflexivity]|].
  destruct (zoom_steps_inverse initial_state 10) as [H _]; [lia | reflexivity |].
  apply H. lia.
Defined.

(** A step from any level within the bounds, on the grid or not (as
    [fitToScreen] may leave it), ends within the bounds and on the grid. *)
Theorem zoom_step_returns_to_grid (s : State) :
  in_zoom_range (zoomLevel s) →
  (in_zoom_range (zoomLevel (zoomIn s)) ∧ multiple_of_tenth (zoomLevel (zoomIn s))) ∧
  (in_zoom_range (zoomLevel (zoomOut s)) ∧ multiple_of_tenth (zoomLevel (zoomOut s))).
Proof.
  intros [Hlo Hhi].
  split; [split; [|apply zoomIn_multiple] | split; [|apply zoomOut_multiple]].
  - rewrite zoomIn_level. apply round_tenth_range.
    destruct (Math_min_cases (zoomLevel s + (1 # 10)) 4) as [[Hle ->]|[_ ->]].
    + split; [|exact Hle].
      apply Qle_trans with (zoomLevel s); [exact Hlo|].
      rewrite <- (Qplus_0_r (zoomLevel s)) at 1.
      apply Qplus_le_r. discriminate.
    + split; [discriminate | apply Qle_refl].
  - rewrite zoomOut_level. apply round_tenth_range.
    destruct (Math_max_cases (zoomLevel s - (1 # 10)) (2 # 10)) as [[_ ->]|[Hlt ->]].
    + split; [apply Qle_refl | discriminate].
    + split; [by apply Qlt_le_weak|].
      apply Qle_trans with (zoomLevel s); [|exact Hhi].
      rewrite <- (Qplus_0_r (zoomLevel s)) at 2.
      unfold Qminus. apply Qplus_le_r. discriminate.
Qed.

Lemma zoom_step_returns_to_grid_witness :
  let s := fitToScreen (Some {| clientWidth := 1000; clientHeight := 500 |})
                       (Some {| naturalWidth := 2000; naturalHeight := 500 |})
                       initial_state in
  in_zoom_range (zoomLevel s) ∧
  (zoomLevel s == 48 # 100)%Q ∧
  multiple_of_tenth (zoomLevel (zoomIn s)).
Proof.
  intros s.
  assert (Hr : in_zoom_range (zoomLevel s)) by (split; discriminate).
  split; [exact Hr|]. split; [reflexivity|].
  apply (zoom_step_returns_to_grid s Hr).
Defined.

End ZoomComposition.

Section WheelAndPinch.

Import Zoom Wheel.

Lemma run_app (l1 l2 : list WheelEvent) (w : WheelState) (s : State) :
  run (l1 ++ l2) w s = run l2 (run l1 w s).1 (run l1 w s).2.
Proof.
  unfold run. rewrite fold_left_app.
  by destruct (fold_left _ l1 (w, s)).
Qed.

(** Wheel events alone only move the accumulator and set the timer. *)
Lemma run_wheel_events (events : list WheelEvent) (w : WheelState) (s : State) :
  onlyWheel events →
  run events w s
  = ({| zoomAccumulator := gestureDelta events (zoomAccumulator w);
        zoomTimeout := zoomTimeout w || hasGesture events |}, s).
Proof.
  revert w. induction events as [|e events IH]; intros w Hall.
  - cbn. rewrite orb_false_r. by destruct w.
  - assert (Hrest : onlyWheel events)
      by (intros e' He'; apply Hall; by right).
    destruct e as [inside ctrlKey metaKey deltaY|];
      [|by destruct (Hall TimerExpired (list_elem_of_here _ _))].
    change (run (WheelMoved inside ctrlKey metaKey deltaY :: events) w s)
      with (run events (wheel inside ctrlKey metaKey deltaY w).1 s).
    rewrite (IH _ Hrest). unfold wheel. cbn [gestureDelta hasGesture fold_left existsb].
    destruct inside; [destruct (ctrlKey || metaKey)|]; cbn;
      rewrite ?orb_true_r; reflexivity.
Qed.

(** A burst of wheel events with whole-number deltas and the expiry of the
    timer after it: whatever the number of events, the zoom level takes at
    most one step, up when the deltas of the zoom gestures (events inside the
    viewer with Ctrl or Cmd held) add up to less than -30, down when they add
    up to more than 30 and none otherwise, and the accumulator is empty
    again; a wheel event that is no zoom gesture is not intercepted and
    leaves the accumulator alone. *)
Theorem wheel_burst_takes_one_step (events : list WheelEvent) (s : State) :
  onlyWheel events →
  exactDeltas events →
  run (events ++ [TimerExpired]) initial_wheel s
  = (initial_wheel,
     if Js.gt (Qabs (gestureDelta events 0)) 30
     then if Js.lt (gestureDelta events 0) 0 then zoomIn s else zoomOut s
     else s) ∧
  (∀ inside ctrlKey metaKey deltaY w,
     inside && (ctrlKey || metaKey) = false →
     wheel inside ctrlKey metaKey deltaY w = (w, false)).
Proof.
  intros Hall _. split.
  - rewrite run_app, (run_wheel_events _ _ _ Hall). cbn [fst snd].
    unfold run. cbn [fold_left handle fst snd zoomTimeout zoomAccumulator initial_wheel orb].
    destruct (hasGesture events) eqn:Hg.
    + reflexivity.
    + assert (Hzero : ∀ acc, hasGesture events = false →
                gestureDelta events acc = acc).
      { clear. induction events as [|e events IH]; intros acc Hg; [reflexivity|].
        cbn in Hg. apply orb_false_iff in Hg as [He Hg].
        unfold gestureDelta in *. cbn [fold_left].
        destruct e as [[] c m d|]; rewrite ?He; by apply IH. }
      rewrite (Hzero _ Hg). reflexivity.
  - intros inside ctrlKey metaKey deltaY w H. unfold wheel.
    destruct inside; [|reflexivity]. cbn in H. by rewrite H.
Qed.

Lemma wheel_burst_takes_one_step_witness :
  onlyWheel [WheelMoved true true false (-12); WheelMoved true false false 40;
             WheelMoved true true false (-10); WheelMoved true false true (-9)] ∧
  exactDeltas
    [WheelMoved true true false (-12); WheelMoved true false false 40;
     WheelMoved true true false (-10); WheelMoved true false true (-9)] ∧
  (zoomLevel
     (run ([WheelMoved true true false (-12); WheelMoved true false false 40;
            WheelMoved true true false (-10); WheelMoved true false true (-9)]
           ++ [TimerExpired]) initial_wheel initial_state).2 == 11 # 10)%Q.
Proof.
  assert (Hall : onlyWheel
            [WheelMoved true true false (-12); WheelMoved true false false 40;
             WheelMoved true true false (-10); WheelMoved true false true (-9)]).
  { intros e He Hc. subst e.
    repeat (apply elem_of_cons in He as [He|He]; [discriminate|]).
    by apply elem_of_nil in He. }
  assert (Hexact : exactDeltas
            [WheelMoved true true false (-12); WheelMoved true false false 40;
             WheelMoved true true false (-10); WheelMoved true false true (-9)]).
  { split; [cbn; lia | reflexivity]. }
  split; [exact Hall|]. split; [exact Hexact|].
  rewrite (proj1 (wheel_burst_takes_one_step _ initial_state Hall Hexact)).
  reflexivity.
Defined.

Lemma Math_min_comp (x x' y y' : Q) :
  (x == x')%Q → (y == y')%Q → (Js.Math_min x y == Js.Math_min x' y')%Q.
Proof.
  intros Hx Hy.
  destruct (Math_min_cases x y) as [[H1 ->]|[H1 ->]];
    destruct (Math_min_cases x' y') as [[H2 ->]|[H2 ->]]; try done.
  - rewrite Hx, Hy in H1. apply Qle_antisym; rewrite ?Hx, ?Hy.
    + exact H1.
    + by apply Qlt_le_weak.
  - rewrite Hx, Hy in H1. apply Qle_antisym; rewrite ?Hx, ?Hy.
    + by apply Qlt_le_weak.
    + exact H2.
Qed.

Lemma Math_max_comp (x x' y y' : Q) :
  (x == x')%Q → (y == y')%Q → (Js.Math_max x y == Js.Math_max x' y')%Q.
Proof.
  intros Hx Hy.
  destruct (Math_max_cases x y) as [[H1 ->]|[H1 ->]];
    destruct (Math_max_cases x' y') as [[H2 ->]|[H2 ->]]; try done.
  - rewrite Hx, Hy in H1. apply Qle_antisym; rewrite ?Hx, ?Hy.
    + by apply Qlt_le_weak.
    + exact H1.
  - rewrite Hx, Hy in H1. apply Qle_antisym; rewrite ?Hx, ?Hy.
    + exact H2.
    + by apply Qlt_le_weak.
Qed.

Lemma clamp_in_range (v : Q) :
  in_zoom_range v → (Js.Math_max (2 # 10) (Js.Math_min 4 v) == v)%Q.
Proof.
  intros [Hlo Hhi].
  destruct (Math_min_cases 4 v) as [[H1 ->]|[H1 ->]].
  - assert (E : (v == 4)%Q) by (by apply Qle_antisym).
    destruct (Math_max_cases (2 # 10) 4) as [[_ ->]|[H2 _]]; [by rewrite E|].
    exfalso. revert H2. discriminate.
  - destruct (Math_max_cases (2 # 10) v) as [[_ ->]|[H2 ->]]; [reflexivity|].
    exfalso. exact (Qlt_not_le _ _ H2 Hlo).
Qed.

(** The pinch gesture works from the level at its start: with the level on
    the grid when two fingers touch down at a distance that is not zero, a
    move that keeps the distance leaves that level, and the level after a
    move is the same whatever moves came before it in the gesture. *)
Theorem pinch_level_from_gesture_start (hypot : Q → Q → Q)
    (touch1 touch2 other1 other2 : Touch) (g : Pinch) (s between : State)
    (k : Z) :
  2 ≤ k ≤ 40 →
  (zoomLevel s == inject_Z k / 10)%Q →
  (0 < hypot (clientX touch2 - clientX touch1) (clientY touch2 - clientY touch1))%Q →
  let started := touchstart hypot true [touch1; touch2] g s in
  (zoomLevel (touchmove hypot true [touch1; touch2] started between)
   == zoomLevel s)%Q ∧
  zoomLevel (touchmove hypot true [other1; other2] started
               (touchmove hypot true [touch1; touch2] started between))
  = zoomLevel (touchmove hypot true [other1; other2] started s).
Proof.
  intros Hk Hs Hd started.
  assert (Hgt : Js.gt (initialPinchDistance started) 0 = true)
    by (by apply lt_true).
  split.
  - unfold touchmove. rewrite Hgt. cbn [zoomLevel set_zoomLevel].
    cbn [started touchstart initialPinchDistance initialZoomLevel].
    set (d := hypot _ _) in *.
    assert (Hv : (zoomLevel s * (d / d) == inject_Z k / 10)%Q).
    { rewrite Hs. field. by apply Qpos_nonzero. }
    assert (Hc : (Js.Math_max (2 # 10) (Js.Math_min 4 (zoomLevel s * (d / d)))
                  == inject_Z k / 10)%Q).
    { rewrite <- (clamp_in_range (inject_Z k / 10))
        by (by apply in_zoom_range_tenths).
      apply Math_max_comp; [reflexivity|].
      apply Math_min_comp; [reflexivity | exact Hv]. }
    rewrite (round_tenth_comp _ _ Hc), Hs.
    by apply round_tenth_tenths.
  - unfold touchmove. rewrite Hgt. reflexivity.
Qed.

Lemma pinch_level_from_gesture_start_witness :
  let hypot := λ x y : Q, (Qabs x + Qabs y)%Q in
  let touch1 := {| clientX := 10; clientY := 10 |} in
  let touch2 := {| clientX := 110; clientY := 10 |} in
  (2 ≤ 10 ≤ 40 ∧ (zoomLevel initial_state == inject_Z 10 / 10)%Q ∧
   (0 < hypot (clientX touch2 - clientX touch1) (clientY touch2 - clientY touch1))%Q) ∧
  (zoomLevel
     (touchmove hypot true [touch1; touch2]
        (touchstart hypot true [touch1; touch2] initial_pinch initial_state)
        (zoomIn initial_state)) == 1)%Q.
Proof.
  intros hypot touch1 touch2.
  split; [split; [lia | split; reflexivity]|].
  destruct (pinch_level_from_gesture_start hypot touch1 touch2 touch1 touch2
              initial_pinch initial_state (zoomIn initial_state) 10)
    as [H _]; [lia | reflexivity | reflexivity |].
  exact H.
Defined.

End WheelAndPinch.

(** ** Strokes and brushes *)

Section StrokeFacts.

Import Annotation Strokes.

Variable hexToRgba : string → Q → string.

(** One move of a stroke in progress. *)
Lemma draw_in_stroke (cv : Canvas) (e : PointerEvent) (s : State) :
  enabled (drawing s) = true →
  isDrawing (drawing s) = true →
  canvas (drawing s) = Some cv →
  ctx (drawing s) = true →
  ∃ g, draw hexToRgba e s
       = (Completed (set_drawing (set_last (getCanvasCoords cv e) (drawing s)) s),
          Some g) ∧
       seg_from g = (lastX (drawing s), lastY (drawing s)) ∧
       seg_to g = getCanvasCoords cv e ∧
       lineWidth g = currentBrushSize s ∧
       globalCompositeOperation g
       = (if decide (tool (drawing s) = "eraser")
          then "destination-out" else "source-over").
Proof.
  intros He Hd Hcv Hctx. unfold draw. rewrite He, Hd, Hcv, Hctx. cbn.
  destruct (decide (tool (drawing s) = "eraser"));
    [|destruct (decide (tool (drawing s) = "highlighter"))];
    eexists; (split; [reflexivity|]); by repeat split.
Qed.

Lemma drawAll_in_stroke (cv : Canvas) (moves : list PointerEvent) (s : State) :
  enabled (drawing s) = true →
  isDrawing (drawing s) = true →
  canvas (drawing s) = Some cv →
  ctx (drawing s) = true →
  ∃ s' segments,
    drawAll hexToRgba moves s = (s', segments) ∧
    (λ g, (seg_from g, seg_to g)) <$> segments
    = consecutive (lastX (drawing s), lastY (drawing s))
        (getCanvasCoords cv <$> moves) ∧
    Forall (λ g, lineWidth g = currentBrushSize s ∧
                 globalCompositeOperation g
                 = (if decide (tool (drawing s) = "eraser")
                    then "destination-out" else "source-over")) segments ∧
    isDrawing (drawing s') = true ∧
    savedDrawings (drawing s') = savedDrawings (drawing s).
Proof.
  revert s. induction moves as [|e moves IH]; intros s He Hd Hcv Hctx.
  - eexists _, _. split; [reflexivity|]. by repeat split.
  - destruct (draw_in_stroke cv e s He Hd Hcv Hctx)
      as (g & Hdraw & Hfrom & Hto & Hw & Hop).
    destruct (IH (set_drawing (set_last (getCanvasCoords cv e) (drawing s)) s)
                He Hd Hcv Hctx)
      as (s' & segs & Hall & Hpairs & Hstyle & Hd' & Hsaved).
    exists s', (g :: segs). cbn [drawAll]. rewrite Hdraw. cbn [state_of].
    rewrite Hall. split; [reflexivity|].
    split; [|split; [|split]].
    + cbn. rewrite Hfrom, Hto. f_equal.
      rewrite Hpairs. cbn. by destruct (getCanvasCoords cv e).
    + constructor; [by split | exact Hstyle].
    + exact Hd'.
    + exact Hsaved.
Qed.

(** A stroke is a connected line: with drawing enabled and the canvas and
    its context in place, [startDrawing] and the moves that follow stroke one
    segment for each move, the first from the point where the stroke began
    and each next one from the point where the one before ended, all with
    the width of the active tool, and erasing exactly when the tool is the
    eraser; no move writes a saved drawing. *)
Theorem stroke_is_connected (cv : Canvas) (e0 : PointerEvent)
    (moves : list PointerEvent) (s : State) :
  enabled (drawing s) = true →
  canvas (drawing s) = Some cv →
  ctx (drawing s) = true →
  ∃ s1 s2 segments,
    startDrawing e0 s = Completed s1 ∧
    drawAll hexToRgba moves s1 = (s2, segments) ∧
    (λ g, (seg_from g, seg_to g)) <$> segments
    = consecutive (getCanvasCoords cv e0) (getCanvasCoords cv <$> moves) ∧
    Forall (λ g, lineWidth g = currentBrushSize s ∧
                 globalCompositeOperation g
                 = (if decide (tool (drawing s) = "eraser")
                    then "destination-out" else "source-over")) segments ∧
    savedDrawings (drawing s2) = savedDrawings (drawing s).
Proof.
  intros He Hcv Hctx.
  set (s1 := set_drawing
               (set_last (getCanvasCoords cv e0)
                  (set_isDrawing true (drawing s)))
               (set_drawing (set_isDrawing true (drawing s)) s)).
  destruct (drawAll_in_stroke cv moves s1 He eq_refl Hcv Hctx)
    as (s2 & segs & Hall & Hpairs & Hstyle & _ & Hsaved).
  exists s1, s2, segs.
  split; [unfold startDrawing; rewrite He; cbn; by rewrite Hcv|].
  split; [exact Hall|]. split; [|split; [exact Hstyle | exact Hsaved]].
  rewrite Hpairs. cbn. by destruct (getCanvasCoords cv e0).
Qed.

(** Lifting the pen: [stopDrawing] ends a stroke in progress and saves the
    canvas under the key of the page, so that a second call (the pointer
    leaving the canvas after the button was released) changes nothing; the
    drawing is what [restoreDrawing] gives for the page, still so after going
    to the next page and back; and without a stroke in progress
    [stopDrawing] writes nothing. *)
Theorem stopDrawing_saves_once (s : State) (ex : Exercise) (cv : Canvas) :
  isDrawing (drawing s) = true →
  currentExercise s = Some ex →
  canvas (drawing s) = Some cv →
  ctx (drawing s) = true →
  toDataURL cv ≠ "" →
  isDrawing (drawing (stopDrawing s)) = false ∧
  stopDrawing (stopDrawing s) = stopDrawing s ∧
  restoreDrawing (stopDrawing s) = Some (toDataURL cv) ∧
  (1 ≤ currentPage s < total_pages ex →
   ∃ s2, Navigation.originalNextPage (stopDrawing s) = Some s2 ∧
         currentPage s2 = currentPage s + 1 ∧
         restoreDrawing (Navigation.originalPrevPage s2) = Some (toDataURL cv)) ∧
  (∀ idle, isDrawing (drawing idle) = false → stopDrawing idle = idle).
Proof.
  intros Hd Hex Hcv Hctx Hurl.
  assert (Ht : Js.truthy (Some (toDataURL cv)) = true)
    by (by destruct (toDataURL cv)).
  set (s0 := set_drawing (set_isDrawing false (drawing s)) s).
  assert (Hstop : stopDrawing s = saveDrawing s0)
    by (unfold stopDrawing; by rewrite Hd).
  destruct (saveDrawing_savedDrawings s0 ex cv Hex Hcv)
    as (Hsaved & Hex' & Hp' & Hcv' & Hctx').
  assert (Hnot : isDrawing (drawing (saveDrawing s0)) = false).
  { unfold saveDrawing. cbn. by rewrite Hex, Hcv. }
  assert (Hrestore : restoreDrawing (saveDrawing s0) = Some (toDataURL cv)).
  { unfold restoreDrawing. rewrite Hex', Hcv', Hctx', Hp', Hsaved. cbn.
    rewrite Hex, Hcv, Hctx. cbn. by rewrite lookup_insert_eq, Ht. }
  rewrite Hstop.
  split; [exact Hnot|]. split; [unfold stopDrawing; by rewrite Hnot|].
  split; [exact Hrestore|]. split.
  - intros [H1 Hlt]. unfold Navigation.originalNextPage.
    rewrite Hex', Hp'. cbn [currentPage s0 set_drawing currentExercise].
    rewrite Hex. rewrite (proj2 (Z.ltb_lt _ _) Hlt).
    eexists. split; [reflexivity|]. split; [reflexivity|].
    unfold Navigation.originalPrevPage. cbn [currentPage set_currentPage].
    rewrite (proj2 (Z.ltb_lt 1 (currentPage s + 1))) by lia.
    replace (currentPage s + 1 - 1) with (currentPage s) by lia.
    rewrite <- Hrestore. unfold restoreDrawing. cbn. by rewrite Hp'.
  - intros idle Hidle. unfold stopDrawing. by rewrite Hidle.
Qed.

End StrokeFacts.

Section BrushFacts.

Import Annotation Strokes.

Lemma stroke_is_connected_witness :
  (enabled (drawing sketching) = true ∧
   canvas (drawing sketching) = Some half_size_canvas ∧
   ctx (drawing sketching) = true) ∧
  ∃ s1 s2 segments,
    startDrawing (mouse_event 10 20) sketching = Completed s1 ∧
    drawAll (λ c _, c) [mouse_event 110 20; touch_event 110 120] s1
    = (s2, segments) ∧
    (λ g, (seg_from g, seg_to g)) <$> segments
    = consecutive (getCanvasCoords half_size_canvas (mouse_event 10 20))
        (getCanvasCoords half_size_canvas
           <$> [mouse_event 110 20; touch_event 110 120]).
Proof.
  split; [by repeat split|].
  destruct (stroke_is_connected (λ c _, c) half_size_canvas (mouse_event 10 20)
              [mouse_event 110 20; touch_event 110 120] sketching
              eq_refl eq_refl eq_refl)
    as (s1 & s2 & segs & H1 & H2 & H3 & _).
  by exists s1, s2, segs.
Defined.

Lemma stopDrawing_saves_once_witness :
  ∃ s1,
    startDrawing (mouse_event 10 20) sketching = Completed s1 ∧
    (isDrawing (drawing s1) = true ∧
     currentExercise s1
       = Some {| name := "Series"; total_pages := 2;
                 pages := ["p1.png"; "p2.png"]; isPDF := false |} ∧
     canvas (drawing s1) = Some half_size_canvas ∧
     ctx (drawing s1) = true ∧
     toDataURL half_size_canvas ≠ "") ∧
    restoreDrawing (stopDrawing s1) = Some "data:image/png;strokes".
Proof.
  eexists. split; [reflexivity|].
  split; [by repeat split|].
  match goal with
  | |- restoreDrawing (stopDrawing ?s1) = _ =>
      destruct (stopDrawing_saves_once s1
                  {| name := "Series"; total_pages := 2;
                     pages := ["p1.png"; "p2.png"]; isPDF := false |}
                  half_size_canvas eq_refl eq_refl eq_refl eq_refl)
        as (_ & _ & H & _); [discriminate|]
  end.
  exact H.
Defined.

Lemma currentBrushSize_setTool (t : string) (s : State) :
  currentBrushSize (setTool t s)
  = match brushSizes (drawing s) !! t with
    | Some n => if n =? 0 then 4 else n
    | None => 4
    end.
Proof. reflexivity. Qed.

(** Each tool has its own width: after a width is set for the active tool,
    strokes of that tool use it (a width of 0 counting as 4), the widths of
    the other tools are as before, and the width is still there when the
    tool is selected again after other tools were used and resized; a tool
    without a width draws with 4. *)
Theorem brush_width_per_tool (t : string) (n : Z) (s : State) :
  currentBrushSize (setBrushSize n (setTool t s)) = (if n =? 0 then 4 else n) ∧
  (∀ t', t' ≠ t →
     currentBrushSize (setTool t' (setBrushSize n (setTool t s)))
     = currentBrushSize (setTool t' s)) ∧
  (∀ t' m, t' ≠ t →
     currentBrushSize
       (setTool t (setBrushSize m (setTool t' (setBrushSize n (setTool t s)))))
     = (if n =? 0 then 4 else n)) ∧
  (∀ t', brushSizes (drawing s) !! t' = None →
         currentBrushSize (setTool t' s) = 4).
Proof.
  split; [|split; [|split]].
  - unfold currentBrushSize, setBrushSize, setTool. cbn.
    by rewrite lookup_insert_eq.
  - intros t' Hne. rewrite !currentBrushSize_setTool.
    unfold setBrushSize, setTool. cbn. by rewrite lookup_insert_ne.
  - intros t' m Hne. rewrite currentBrushSize_setTool.
    unfold setBrushSize, setTool. cbn.
    rewrite lookup_insert_ne by done. by rewrite lookup_insert_eq.
  - intros t' Hnone. rewrite currentBrushSize_setTool. by rewrite Hnone.
Qed.

Lemma brush_width_per_tool_witness :
  currentBrushSize
    (setTool "pen"
       (setBrushSize 30 (setTool "eraser"
          (setBrushSize 7 (setTool "pen" initial_state))))) = 7 ∧
  currentBrushSize (setTool "highlighter"
                      (setBrushSize 7 (setTool "pen" initial_state))) = 12.
Proof.
  destruct (brush_width_per_tool "pen" 7 initial_state) as (_ & H1 & H2 & _).
  split.
  - apply (H2 "eraser" 30). discriminate.
  - rewrite (H1 "highlighter") by discriminate. reflexivity.
Defined.

(** The three tools of the toolbar keep a width whatever the toolbar does. *)
Lemma brush_actions_keep_defaults (actions : list BrushAction) (s : State) :
  (∀ t, is_Some (brushSizes (drawing initial_state) !! t) →
        is_Some (brushSizes (drawing s) !! t)) →
  ∀ t, is_Some (brushSizes (drawing initial_state) !! t) →
       is_Some (brushSizes (drawing (fold_left (λ st a, applyBrush a st) actions s))
                !! t).
Proof.
  revert s. induction actions as [|a actions IH]; intros s Hs t Ht; [by apply Hs|].
  cbn [fold_left]. apply IH; [|exact Ht].
  intros t' Ht'. destruct a as [tool'|size]; cbn.
  - by apply Hs.
  - destruct (decide (tool (drawing s) = t')) as [->|Hne].
    + rewrite lookup_insert_eq. by eexists.
    + rewrite lookup_insert_ne by done. by apply Hs.
Qed.

(** The widths survive a reload: whatever tools were selected and widths set
    since the script started, saving the widths and loading them into the
    initial state of a new session gives back the same widths, for every
    tool. *)
Theorem brush_sizes_survive_reload (actions : list BrushAction) :
  let s := fold_left (λ st a, applyBrush a st) actions initial_state in
  brushSizes (drawing (loadBrushSizes (saveBrushSizes s) initial_state))
  = brushSizes (drawing s) ∧
  ∀ t, currentBrushSize (setTool t (loadBrushSizes (saveBrushSizes s) initial_state))
       = currentBrushSize (setTool t s).
Proof.
  intros s.
  assert (Heq : brushSizes (drawing (loadBrushSizes (saveBrushSizes s) initial_state))
                = brushSizes (drawing s)).
  { apply map_eq. intros t. unfold saveBrushSizes.
    rewrite loadBrushSizes_lookup.
    destruct (brushSizes (drawing s) !! t) as [w|] eqn:Hw; [reflexivity|].
    destruct (brushSizes (drawing initial_state) !! t) as [d|] eqn:Hd;
      [|reflexivity].
    destruct (brush_actions_keep_defaults actions initial_state (λ _ H, H) t)
      as [w Hw']; [by eexists|].
    fold s in Hw'. congruence. }
  split; [exact Heq|].
  intros t. by rewrite !currentBrushSize_setTool, Heq.
Qed.

End BrushFacts.

(** ** The stopwatch *)

Section TimerFacts.

Import Timer.

(** What every reachable clock satisfies: the stopwatch runs on exactly one
    interval, which it remembers, or is stopped with no interval set. *)
Lemma clock_invariant (actions : list ClockAction) :
  let c := fold_left (λ c a, act a c) actions initial_clock in
  0 ≤ seconds (stopwatch c) ∧
  1 ≤ nextTimerId c ∧
  ((isRunning (stopwatch c) = true ∧
    ∃ id, timerId (stopwatch c) = Some id ∧ intervals c = {[id]} ∧
          1 ≤ id < nextTimerId c) ∨
   (isRunning (stopwatch c) = false ∧ timerId (stopwatch c) = None ∧
    intervals c = ∅)).
Proof.
  cbv zeta.
  assert (Hgen : ∀ c,
    (0 ≤ seconds (stopwatch c) ∧
     1 ≤ nextTimerId c ∧
     ((isRunning (stopwatch c) = true ∧
       ∃ id, timerId (stopwatch c) = Some id ∧ intervals c = {[id]} ∧
             1 ≤ id < nextTimerId c) ∨
      (isRunning (stopwatch c) = false ∧ timerId (stopwatch c) = None ∧
       intervals c = ∅))) →
    let c' := fold_left (λ c a, act a c) actions c in
    0 ≤ seconds (stopwatch c') ∧
    1 ≤ nextTimerId c' ∧
    ((isRunning (stopwatch c') = true ∧
      ∃ id, timerId (stopwatch c') = Some id ∧ intervals c' = {[id]} ∧
            1 ≤ id < nextTimerId c') ∨
     (isRunning (stopwatch c') = false ∧ timerId (stopwatch c') = None ∧
      intervals c' = ∅))).
  { induction actions as [|a actions IH]; intros c Hc; [exact Hc|].
    cbn [fold_left]. apply IH. clear IH.
    destruct c as [[secs tid run] ivs next].
    destruct Hc as (Hs & Hn & [(Hrun & id & Htid & Hiv & Hid) | (Hrun & Htid & Hiv)]);
      cbn in *; subst;
      destruct a; cbn;
      unfold startTimer, stopTimer, toggleStopwatch, resetStopwatch,
        selectExercise, secondElapses, set_seconds; cbn;
      repeat match goal with
             | |- context [?x =? 0] => destruct (Z.eqb_spec x 0); [lia|]; cbn
             end;
      rewrite ?size_singleton, ?size_empty;
      (split; [lia|]); (split; [lia|]);
      first
        [ left; split; [reflexivity|]; eexists; split; [reflexivity|];
          split; [set_solver | lia]
        | right; split; [reflexivity|]; split; [reflexivity|]; set_solver ]. }
  apply Hgen. split; [cbn; lia|]. split; [cbn; lia|]. right. by repeat split.
Qed.

(** The stopwatch counts one per second: whatever sequence of starts, stops,
    toggles, resets, exercise selections and elapsed seconds a session
    consists of, at most one interval is set, it is set exactly while the
    stopwatch is running, and a second that goes by adds one to the seconds
    of a running stopwatch and nothing to those of a stopped one; the seconds
    are never negative, and starting or stopping twice is starting or
    stopping once. *)
Theorem stopwatch_counts_one_per_second (actions : list ClockAction) :
  let c := fold_left (λ c a, act a c) actions initial_clock in
  0 ≤ seconds (stopwatch c) ∧
  size (intervals c) = (if isRunning (stopwatch c) then 1%nat else 0%nat) ∧
  seconds (stopwatch (secondElapses c))
  = seconds (stopwatch c) + (if isRunning (stopwatch c) then 1 else 0) ∧
  startTimer (startTimer c) = startTimer c ∧
  stopTimer (stopTimer c) = stopTimer c.
Proof.
  intros c. destruct (clock_invariant actions) as (Hs & Hn & Hcases).
  fold c in Hs, Hn, Hcases.
  assert (Hsize : size (intervals c)
                  = (if isRunning (stopwatch c) then 1%nat else 0%nat)).
  { destruct Hcases as [(-> & id & _ & -> & _) | (-> & _ & ->)].
    - apply size_singleton.
    - apply size_empty. }
  split; [exact Hs|]. split; [exact Hsize|]. split; [|split].
  - unfold secondElapses. cbn. rewrite Hsize.
    by destruct (isRunning (stopwatch c)).
  - unfold startTimer. destruct (isRunning (stopwatch c)) eqn:E.
    + by rewrite E.
    + reflexivity.
  - destruct Hcases as [(Hrun & id & Htid & Hiv & Hid) | (Hrun & Htid & Hiv)];
      unfold stopTimer; rewrite Htid; cbn.
    + destruct (Z.eqb_spec id 0); [lia|]. reflexivity.
    + reflexivity.
Qed.

Lemma display_under_100_minutes :
  forallb display_reads_back (seqZ 0 6000) = true.
Proof. vm_compute. reflexivity. Qed.

(** The display of every time under 100 minutes is five characters, two
    digits of minutes, a colon and two digits of seconds, and reads back as
    the number of seconds. *)
Theorem display_is_minutes_and_seconds (sw : Stopwatch) :
  0 ≤ seconds sw < 6000 →
  String.length (display sw) = 5%nat ∧
  readDisplay (display sw) = Some (seconds sw).
Proof.
  intros Hs.
  pose proof display_under_100_minutes as H.
  rewrite forallb_forall in H.
  specialize (H (seconds sw)).
  unfold display_reads_back in H.
  change (display {| seconds := seconds sw; timerId := None; isRunning := false |})
    with (display sw) in H.
  apply andb_true_iff in H as [H1 H2].
  - split; [by apply Nat.eqb_eq | by apply bool_decide_eq_true in H2].
  - apply list_elem_of_In, elem_of_seqZ. lia.
Qed.

Lemma display_is_minutes_and_seconds_witness :
  0 ≤ 754 < 6000 ∧
  display {| seconds := 754; timerId := Some 3; isRunning := true |} = "12:34".
Proof.
  split; [lia|].
  destruct (display_is_minutes_and_seconds
              {| seconds := 754; timerId := Some 3; isRunning := true |})
    as [_ H]; [cbn; lia|].
  reflexivity.
Defined.

End TimerFacts.


(** * The service worker *)

Section ServiceWorkerFacts.

Import ServiceWorker.

Lemma open_lookup_current (storage : gmap string (gmap string Response)) :
  open CACHE_NAME storage !! CACHE_NAME
  = Some (default ∅ (storage !! CACHE_NAME)).
Proof.
  unfold open. destruct (storage !! CACHE_NAME) as [c|] eqn:E.
  - rewrite E. reflexivity.
  - rewrite lookup_insert_eq. reflexivity.
Qed.

Lemma open_lookup_other (name : string)
    (storage : gmap string (gmap string Response)) :
  name ≠ CACHE_NAME →
  open CACHE_NAME storage !! name = storage !! name.
Proof.
  intros Hne. unfold open. destruct (storage !! CACHE_NAME); [reflexivity|].
  rewrite lookup_insert_ne by congruence. reflexivity.
Qed.

Lemma open_present (storage : gmap string (gmap string Response))
    (cache : gmap string Response) :
  storage !! CACHE_NAME = Some cache → open CACHE_NAME storage = storage.
Proof. intros E. unfold open. rewrite E. reflexivity. Qed.

Lemma fetch_GET (network : string → option Response) (request : Request)
    (storage : gmap string (gmap string Response)) :
  method request = "GET" →
  fetch network request storage
  = (Responded (match default ∅ (storage !! CACHE_NAME) !! url request with
                | Some r => Some r
                | None => network (url request)
                end),
     match network (url request) with
     | Some networkResponse =>
         if status networkResponse =? 200
         then <[CACHE_NAME := <[url request := networkResponse]>
                                (default ∅ (storage !! CACHE_NAME))]>
                (open CACHE_NAME storage)
         else open CACHE_NAME storage
     | None => open CACHE_NAME storage
     end).
Proof.
  intros Hm. unfold fetch. rewrite Hm. cbn [String.eqb Ascii.eqb negb].
  change (("GET" =? "GET")%string) with true. cbn [negb].
  rewrite open_lookup_current. reflexivity.
Qed.

(** The [fetch] listener is stale-while-revalidate: a GET that is in the
    cache is answered from the cache whatever the network does, a GET that
    is not is answered by the network, a network response of status 200 is
    what the next GET of the URL gets even offline, and without such a
    response the cache keeps its entries. Caches of other names are never
    touched. *)
Theorem fetch_stale_while_revalidate
    (network : string → option Response) (request : Request)
    (storage : gmap string (gmap string Response)) :
  method request = "GET" →
  let cache := default ∅ (storage !! CACHE_NAME) in
  let after := (fetch network request storage).2 in
  (∀ r, cache !! url request = Some r →
        (fetch network request storage).1 = Responded (Some r))
  ∧ (cache !! url request = None →
        (fetch network request storage).1 = Responded (network (url request)))
  ∧ (∀ r, network (url request) = Some r → status r = 200 →
        ∀ network', (fetch network' request after).1 = Responded (Some r))
  ∧ (∀ r, network (url request) = Some r → status r = 200 →
        ∀ u, u ≠ url request →
             default ∅ (after !! CACHE_NAME) !! u = cache !! u)
  ∧ ((network (url request) = None
      ∨ ∃ r, network (url request) = Some r ∧ status r ≠ 200) →
        default ∅ (after !! CACHE_NAME) = cache)
  ∧ (∀ name, name ≠ CACHE_NAME → after !! name = storage !! name).
Proof.
  intros Hm cache after. subst after.
  rewrite (fetch_GET network request storage Hm). cbn [fst snd]. fold cache.
  split; [|split; [|split; [|split; [|split]]]].
  - intros r E. rewrite E. reflexivity.
  - intros E. rewrite E. reflexivity.
  - intros r E Hs network'. rewrite E, Hs. cbn [Z.eqb Pos.eqb].
    change (200 =? 200) with true. cbv iota.
    rewrite (fetch_GET network' request _ Hm). cbn [fst].
    rewrite lookup_insert_eq. cbn [default from_option id].
    rewrite lookup_insert_eq. reflexivity.
  - intros r E Hs u Hu. rewrite E, Hs. change (200 =? 200) with true.
    cbv iota. rewrite lookup_insert_eq. cbn [default from_option id].
    rewrite lookup_insert_ne by congruence. reflexivity.
  - intros [E | (r & E & Hs)]; rewrite E.
    + rewrite open_lookup_current. reflexivity.
    + apply Z.eqb_neq in Hs. rewrite Hs.
      rewrite open_lookup_current. reflexivity.
  - intros name Hne.
    destruct (network (url request)) as [r|];
      [destruct (status r =? 200)|];
      rewrite ?lookup_insert_ne by congruence;
      apply open_lookup_other; exact Hne.
Qed.

Lemma fetch_stale_while_revalidate_witness :
  let network := λ _ : string, Some {| status := 200; body := "fresh" |} in
  let request := {| method := "GET"; url := "/app.js" |} in
  let storage : gmap string (gmap string Response) :=
    {[ CACHE_NAME := {[ "/app.js" := {| status := 200; body := "stale" |} ]} ]} in
  (fetch network request storage).1
  = Responded (Some {| status := 200; body := "stale" |})
  ∧ (fetch offline request (fetch network request storage).2).1
    = Responded (Some {| status := 200; body := "fresh" |}).
Proof.
  intros network request storage.
  destruct (fetch_stale_while_revalidate network request storage eq_refl)
    as (Hhit & _ & Hnext & _).
  split.
  - apply Hhit. reflexivity.
  - apply (Hnext _ eq_refl eq_refl).
Defined.

(** The [fetch] listener leaves a request that is not a GET alone, and what
    it stores for a GET is only a response of status 200 that the network
    gave for the URL of the request: every entry of the cache afterwards was
    there before or is such a response. *)
Theorem fetch_stores_only_status_200
    (network : string → option Response) (request : Request)
    (storage : gmap string (gmap string Response)) :
  (method request ≠ "GET" →
     fetch network request storage = (NotIntercepted, storage))
  ∧ (∀ u r,
       default ∅ ((fetch network request storage).2 !! CACHE_NAME) !! u
       = Some r →
       default ∅ (storage !! CACHE_NAME) !! u = Some r
       ∨ (method request = "GET" ∧ u = url request
          ∧ network u = Some r ∧ status r = 200)).
Proof.
  split.
  - intros Hm. unfold fetch.
    destruct (String.eqb_spec (method request) "GET") as [E|E];
      [contradiction|reflexivity].
  - intros u r.
    destruct (String.eqb_spec (method request) "GET") as [Hm|Hm].
    + rewrite (fetch_GET network request storage Hm). cbn [snd].
      destruct (network (url request)) as [r'|] eqn:E.
      * destruct (status r' =? 200) eqn:Hs.
        -- rewrite lookup_insert_eq. cbn [default from_option id].
           destruct (decide (u = url request)) as [->|Hu].
           ++ rewrite lookup_insert_eq. intros [= <-]. right.
              apply Z.eqb_eq in Hs. auto.
           ++ rewrite lookup_insert_ne by congruence. auto.
        -- rewrite open_lookup_current. auto.
      * rewrite open_lookup_current. auto.
    + unfold fetch. apply String.eqb_neq in Hm. rewrite Hm. cbn [negb snd].
      auto.
Qed.

Lemma fetch_stores_only_status_200_witness :
  let network := λ _ : string, Some {| status := 404; body := "gone" |} in
  fetch network {| method := "POST"; url := "/app.js" |} ∅ = (NotIntercepted, ∅)
  ∧ default ∅ ((fetch network {| method := "GET"; url := "/app.js" |} ∅).2
               !! CACHE_NAME) !! "/app.js" = None.
Proof.
  intros network. split.
  - apply (fetch_stores_only_status_200 network
             {| method := "POST"; url := "/app.js" |} ∅). discriminate.
  - destruct (default ∅ ((fetch network {| method := "GET"; url := "/app.js" |}
                            ∅).2 !! CACHE_NAME) !! "/app.js") as [r|] eqn:E;
      [|reflexivity].
    destruct (proj2 (fetch_stores_only_status_200 network
                       {| method := "GET"; url := "/app.js" |} ∅) _ _ E)
      as [H | (_ & _ & H & Hs)].
    + discriminate H.
    + injection H as <-. discriminate Hs.
Defined.

Lemma addAll_succeeds (network : string → option Response) (l : list string) :
  (∀ u, u ∈ l → ∃ r, network u = Some r ∧ ok r = true) →
  ∃ entries,
    mapM (λ u, r ← network u; if ok r then Some (u, r) else None) l
    = Some entries
    ∧ entries.*1 = l
    ∧ ∀ ur, ur ∈ entries → network ur.1 = Some ur.2.
Proof.
  induction l as [|u l IH]; intros H.
  - exists []. repeat split. intros ur Hin. apply elem_of_nil in Hin as [].
  - destruct (H u) as (r & E & Hok); [apply elem_of_cons; auto|].
    destruct IH as (entries & Em & Ek & Hv).
    { intros u' Hin. apply H. apply elem_of_cons; auto. }
    exists ((u, r) :: entries). split; [|split].
    + cbn. rewrite E. cbn. rewrite Hok. cbn.
      cbn in Em. rewrite Em. reflexivity.
    + cbn. rewrite Ek. reflexivity.
    + intros ur Hin. apply elem_of_cons in Hin as [-> | Hin];
        [exact E | exact (Hv ur Hin)].
Qed.

Lemma addAll_lookup (network : string → option Response)
    (entries : list (string * Response)) :
  (∀ ur, ur ∈ entries → network ur.1 = Some ur.2) →
  ∀ (cache : gmap string Response) u,
    u ∈ entries.*1 ∨ cache !! u = network u →
    fold_left (λ cache ur, <[ur.1 := ur.2]> cache) entries cache !! u
    = network u.
Proof.
  induction entries as [|[k v] entries IH]; intros Hv cache u Hu.
  - destruct Hu as [Hin | E]; [apply elem_of_nil in Hin as [] | exact E].
  - cbn [fold_left fst snd]. apply IH.
    + intros ur Hin. apply Hv. apply elem_of_cons; auto.
    + destruct (decide (u = k)) as [-> | Hne].
      * right. rewrite lookup_insert_eq. symmetry.
        apply (Hv (k, v)). apply elem_of_cons; auto.
      * destruct Hu as [Hin | E].
        -- cbn in Hin. apply elem_of_cons in Hin as [? | Hin];
             [contradiction | left; exact Hin].
        -- right. rewrite lookup_insert_ne by congruence. exact E.
Qed.

Lemma activate_lookup_current (storage : gmap string (gmap string Response)) :
  activate storage !! CACHE_NAME = storage !! CACHE_NAME.
Proof.
  unfold activate. destruct (storage !! CACHE_NAME) as [c|] eqn:E.
  - apply map_lookup_filter_Some. split; [exact E | reflexivity].
  - apply map_lookup_filter_None. left. exact E.
Qed.

Lemma activate_lookup_other (name : string)
    (storage : gmap string (gmap string Response)) :
  name ≠ CACHE_NAME → activate storage !! name = None.
Proof.
  intros Hne. unfold activate. apply map_lookup_filter_None. right.
  intros c _ E. cbn in E. contradiction.
Qed.

(** Once the worker was installed with every listed URL fetched with an [ok]
    response and then activated, the application shell works offline: a GET
    of a listed URL is answered with the response fetched at installation,
    and the storage holds no cache under another name. *)
Theorem shell_served_offline_after_install
    (network : string → option Response)
    (storage : gmap string (gmap string Response)) :
  (∀ u, u ∈ urlsToCache → ∃ r, network u = Some r ∧ ok r = true) →
  let installed := activate (install network storage) in
  (∀ u, u ∈ urlsToCache →
     fetch offline {| method := "GET"; url := u |} installed
     = (Responded (network u), installed)
     ∧ network u ≠ None)
  ∧ (∀ name, name ≠ CACHE_NAME → installed !! name = None).
Proof.
  intros H installed. split.
  - intros u Hin.
    destruct (addAll_succeeds network urlsToCache H) as (entries & Em & Ek & Hv).
    assert (Hcache : ∃ cache, installed !! CACHE_NAME = Some cache
                              ∧ cache !! u = network u).
    { subst installed. rewrite activate_lookup_current. unfold install.
      rewrite Em. rewrite lookup_insert_eq. eexists. split; [reflexivity|].
      apply addAll_lookup; [exact Hv|]. left. rewrite Ek. exact Hin. }
    destruct Hcache as (cache & Ec & Eu).
    destruct (H u Hin) as (r & E & _).
    split; [|congruence].
    rewrite fetch_GET by reflexivity. cbn [url offline].
    rewrite Ec. cbn [default from_option id]. rewrite Eu, E.
    rewrite (open_present _ _ Ec). reflexivity.
  - intros name Hne. apply activate_lookup_other. exact Hne.
Qed.

Lemma shell_served_offline_after_install_witness :
  let network := λ u : string, Some {| status := 200; body := u |} in
  let installed := activate (install network {[ "psicotrain-v1" := ∅ ]}) in
  fetch offline {| method := "GET"; url := "/index.html" |} installed
  = (Responded (Some {| status := 200; body := "/index.html" |}), installed)
  ∧ installed !! "psicotrain-v1" = None.
Proof.
  intros network installed.
  assert (H : ∀ u, u ∈ urlsToCache → ∃ r, network u = Some r ∧ ok r = true).
  { intros u _. eexists. split; reflexivity. }
  destruct (shell_served_offline_after_install network
              {[ "psicotrain-v1" := ∅ ]} H) as (Hfetch & Hother).
  split.
  - apply Hfetch. unfold urlsToCache.
    apply elem_of_cons. right. apply elem_of_cons. left. reflexivity.
  - apply Hother. discriminate.
Defined.

End ServiceWorkerFacts.
